(** * Library Management System: lending engine over a table store

    Shallow embedding of [LIBRARYMANAGEMENTSYSTEM.py].  The Python module
    talks to a remote table store through a client object; every
    [.execute()] is one round trip that either answers or raises.  The
    store is modelled as three row lists, the round trips as a small
    state-and-exception monad over a world that carries the tables, the
    clock and a plan saying which of the coming round trips fail. *)

From Stdlib Require Import ZArith List String Ascii Bool Lia.
Import ListNotations.
Open Scope Z_scope.

(** ** Rows and tables *)

(** Modelled from the spec: the table declarations are not part of the
    module.  Columns are the ones the module reads or writes; identifiers
    are integers (the command loop reads them with [int(...)]), the
    timestamps are microseconds on the clock [datetime.utcnow()] reads. *)
Record Member := mkMember
  { member_id : Z; name : string; email : string; join_date : Z }.

Record Book := mkBook
  { book_id : Z; title : string; author : string; category : string;
    stock : Z }.

Record BorrowRecord := mkBorrowRecord
  { record_id : Z; loan_member_id : Z; loan_book_id : Z;
    borrow_date : Z; return_date : option Z }.

(** The column list ["record_id, member_id, book_id, borrow_date"] that
    [report_overdue] selects. *)
Record OverdueRow := mkOverdueRow
  { o_record_id : Z; o_member_id : Z; o_book_id : Z; o_borrow_date : Z }.

Record Database := mkDatabase
  { members : list Member; books : list Book;
    borrow_records : list BorrowRecord }.

(** [faults] is read one flag per round trip: [true] makes that
    [.execute()] raise, an exhausted plan means the store answers. *)
Record World := mkWorld
  { db : Database; clock : Z; faults : list bool }.

(** ** Exceptions and results *)

Inductive Exn :=
| StoreUnavailable   (* the round trip failed *)
| MultipleRows.      (* [.single()] met more than one row *)

Inductive Res (A : Type) :=
| Val (a : A)
| Exc (e : Exn).
Arguments Val {A} a.
Arguments Exc {A} e.

(** The messages of the [{"error": ...}] dictionaries. *)
Inductive ErrorMsg :=
| MemberHasBorrowedBooks      (* "Member has borrowed books, cannot delete!" *)
| BookCurrentlyBorrowed       (* "Book is currently borrowed, cannot delete!" *)
| BookNotAvailable            (* "Book not available!" *)
| RecordNotFound              (* "Record not found!" *)
| BookAlreadyReturned         (* "Book already returned!" *)
| TransactionFailed (e : Exn) (* f"Transaction failed: {e}" *).

(** What a function hands back: [Error m] is [{"error": m}]; [Ok a] is
    the other shape that function returns (the [.data] of a response for
    the deletes, [{"success": ..., "record": a}] for [borrow_book],
    [{"success": ...}] for [return_book]). *)
Inductive Reply (A : Type) :=
| Error (msg : ErrorMsg)
| Ok (a : A).
Arguments Error {A} msg.
Arguments Ok {A} a.

(** ** The monad of store round trips *)

Definition M (A : Type) := World -> Res A * World.

Definition ret {A} (a : A) : M A := fun w => (Val a, w).

Definition bind {A B} (m : M A) (k : A -> M B) : M B :=
  fun w => match m w with
           | (Val a, w') => k a w'
           | (Exc e, w') => (Exc e, w')
           end.

(** [try: ... except Exception as e: ...] *)
Definition try_except {A} (body : M A) (handler : Exn -> M A) : M A :=
  fun w => match body w with
           | (Val a, w') => (Val a, w')
           | (Exc e, w') => handler e w'
           end.

Declare Scope lms_scope.
Delimit Scope lms_scope with lms.
Notation "x <- m ;; k" := (bind m (fun x => k))
  (at level 61, m at next level, right associativity) : lms_scope.
Notation "m ;;; k" := (bind m (fun _ => k))
  (at level 61, right associativity) : lms_scope.
Open Scope lms_scope.

Definition set_db (d : Database) (w : World) : World :=
  mkWorld d (clock w) (faults w).

Definition set_faults (fs : list bool) (w : World) : World :=
  mkWorld (db w) (clock w) fs.

(** One [.execute()]: the request [q] runs against the tables at the
    store's clock unless this round trip is planned to fail. *)
Definition execute {A} (q : Z -> Database -> Res A * Database) : M A :=
  fun w =>
    match faults w with
    | true :: fs => (Exc StoreUnavailable, set_faults fs w)
    | false :: fs =>
        let (r, d) := q (clock w) (db w) in (r, set_db d (set_faults fs w))
    | [] =>
        let (r, d) := q (clock w) (db w) in (r, set_db d w)
    end.

(** [datetime.utcnow()] *)
Definition utcnow : M Z := fun w => (Val (clock w), w).

(** ** Request builders *)

Definition eq_ {R} (col : R -> Z) (v : Z) (rows : list R) : list R :=
  filter (fun r => col r =? v) rows.

Definition is_none {A} (o : option A) : bool :=
  match o with None => true | Some _ => false end.

(** [.is_(col, None)] *)
Definition is_null {R A} (col : R -> option A) (rows : list R) : list R :=
  filter (fun r => is_none (col r)) rows.

Definition lt_ {R} (col : R -> Z) (v : Z) (rows : list R) : list R :=
  filter (fun r => col r <? v) rows.

(** [.single()]: the one row, nothing for no row (the callers test
    [if not book] / [if not record]), an exception for several.  A client
    that raises on no row as well behaves as a failed round trip, which
    the fault plan covers. *)
Definition single {R} (rows : list R) : Res (option R) :=
  match rows with
  | [] => Val None
  | [r] => Val (Some r)
  | _ :: _ :: _ => Exc MultipleRows
  end.

(** [.update(patch).eq(col, v)]: every matching row is patched in place. *)
Definition update_eq {R} (patch : R -> R) (col : R -> Z) (v : Z)
    (rows : list R) : list R :=
  map (fun r => if col r =? v then patch r else r) rows.

(** [.delete().eq(col, v)] *)
Definition delete_eq {R} (col : R -> Z) (v : Z) (rows : list R) : list R :=
  filter (fun r => negb (col r =? v)) rows.

(** The store numbers a new row one past the largest identifier in use. *)
Definition fresh_id (ids : list Z) : Z := 1 + fold_right Z.max 0 ids.

Definition with_members (ms : list Member) (d : Database) : Database :=
  mkDatabase ms (books d) (borrow_records d).
Definition with_books (bs : list Book) (d : Database) : Database :=
  mkDatabase (members d) bs (borrow_records d).
Definition with_borrow_records (rs : list BorrowRecord) (d : Database)
    : Database :=
  mkDatabase (members d) (books d) rs.

Definition set_email (e : string) (m : Member) : Member :=
  mkMember (member_id m) (name m) e (join_date m).
Definition set_stock (s : Z) (b : Book) : Book :=
  mkBook (book_id b) (title b) (author b) (category b) s.
Definition set_return_date (t : Z) (r : BorrowRecord) : BorrowRecord :=
  mkBorrowRecord (record_id r) (loan_member_id r) (loan_book_id r)
    (borrow_date r) (Some t).

(** ** What the module needs from the store beyond rows

    The [ILIKE] filter and the two server-side functions reached through
    [supabase.rpc] are the store's, not the module's. *)
Class Backend := mkBackend
  { AggRow : Type;
    (** [ilike value pattern]: the store's case-insensitive pattern test. *)
    ilike : string -> string -> bool;
    (** The [.data] of calling the named server-side function. *)
    rpc_data : string -> Database -> option (list AggRow) }.

Definition ilike_ `{Backend} {R} (col : R -> string) (pattern : string)
    (rows : list R) : list R :=
  filter (fun r => ilike (col r) pattern) rows.

(** [data or []] *)
Definition or_nil {A} (data : option (list A)) : list A :=
  match data with Some l => l | None => [] end.

(** ** Members *)

Definition add_member (name email : string) : M (list Member) :=
  execute (fun now d =>
    let row := mkMember (fresh_id (map member_id (members d))) name email now in
    (Val [row], with_members (members d ++ [row]) d)).

Definition list_members : M (list Member) :=
  execute (fun _ d => (Val (members d), d)).

Definition update_member (mid : Z) (new_email : string) : M (list Member) :=
  execute (fun _ d =>
    let ms := update_eq (set_email new_email) member_id mid (members d) in
    (Val (eq_ member_id mid ms), with_members ms d)).

Definition delete_member (mid : Z) : M (Reply (list Member)) :=
  borrowed <- execute (fun _ d =>
    (Val (is_null return_date (eq_ loan_member_id mid (borrow_records d))), d));;
  match borrowed with
  | _ :: _ => ret (Error MemberHasBorrowedBooks)
  | [] =>
      data <- execute (fun _ d =>
        (Val (eq_ member_id mid (members d)),
         with_members (delete_eq member_id mid (members d)) d));;
      ret (Ok data)
  end.

(** ** Books *)

Definition add_book (title author category : string) (stock : Z)
    : M (list Book) :=
  execute (fun _ d =>
    let row := mkBook (fresh_id (map book_id (books d)))
                 title author category stock in
    (Val [row], with_books (books d ++ [row]) d)).

Definition list_books : M (list Book) :=
  execute (fun _ d => (Val (books d), d)).

Definition update_book_stock (bid new_stock : Z) : M (list Book) :=
  execute (fun _ d =>
    let bs := update_eq (set_stock new_stock) book_id bid (books d) in
    (Val (eq_ book_id bid bs), with_books bs d)).

Definition delete_book (bid : Z) : M (Reply (list Book)) :=
  borrowed <- execute (fun _ d =>
    (Val (is_null return_date (eq_ loan_book_id bid (borrow_records d))), d));;
  match borrowed with
  | _ :: _ => ret (Error BookCurrentlyBorrowed)
  | [] =>
      data <- execute (fun _ d =>
        (Val (eq_ book_id bid (books d)),
         with_books (delete_eq book_id bid (books d)) d));;
      ret (Ok data)
  end.

(** ** Search *)

Definition is_space (c : ascii) : bool :=
  let n := nat_of_ascii c in
  ((9 <=? n) && (n <=? 13) || (28 <=? n) && (n <=? 32))%nat.

Fixpoint lstrip (s : string) : string :=
  match s with
  | EmptyString => EmptyString
  | String c s' => if is_space c then lstrip s' else s
  end.

Fixpoint rstrip (s : string) : string :=
  match s with
  | EmptyString => EmptyString
  | String c s' =>
      match rstrip s' with
      | EmptyString => if is_space c then EmptyString else String c EmptyString
      | t => String c t
      end
  end.

(** [keyword.strip()] on the ASCII range. *)
Definition strip (s : string) : string := rstrip (lstrip s).

(** [not keyword] *)
Definition is_empty (s : string) : bool :=
  match s with EmptyString => true | String _ _ => false end.

(** [bid in seen] *)
Definition mem (x : Z) (seen : list Z) : bool := existsb (Z.eqb x) seen.

(** The inner loop [for r in rows] over the pair [(seen, results)]. *)
Fixpoint scan_rows (rows : list Book) (st : list Z * list Book)
    : list Z * list Book :=
  match rows with
  | [] => st
  | r :: rows' =>
      let bid := book_id r in
      if mem bid (fst st)
      then scan_rows rows' st
      else scan_rows rows' (bid :: fst st, snd st ++ [r])
  end.

(** The outer loop [for field in (...)], one round trip per field. *)
Fixpoint scan_fields `{Backend} (fields : list (Book -> string))
    (keyword : string) (st : list Z * list Book) : M (list Z * list Book) :=
  match fields with
  | [] => ret st
  | field :: rest =>
      rows <- execute (fun _ d =>
        (Val (ilike_ field ("%" ++ keyword ++ "%") (books d)), d));;
      scan_fields rest keyword (scan_rows rows st)
  end.

Definition search_books `{Backend} (keyword : string) : M (list Book) :=
  let keyword := strip keyword in
  if is_empty keyword then ret []
  else
    st <- scan_fields [title; author; category] keyword ([], []);;
    ret (snd st).

(** ** Transactions *)

(** [book.get("stock", 0)] on the answer to [select("stock")]; [None] is
    the empty answer, [Some s] the dictionary [{"stock": s}]. *)
Definition get_stock (book : option Z) : Z :=
  match book with Some s => s | None => 0 end.

(** [supabase.table("books").select("stock").eq("book_id", bid).single()
    .execute()], as both transactions issue it. *)
Definition select_stock (bid : Z) : M (option Z) :=
  execute (fun _ d => (single (map stock (eq_ book_id bid (books d))), d)).

(** [supabase.table("books").update({"stock": s}).eq("book_id", bid)
    .execute()], as both transactions issue it. *)
Definition write_stock (bid s : Z) : M (list Book) :=
  execute (fun _ d =>
    let bs := update_eq (set_stock s) book_id bid (books d) in
    (Val (eq_ book_id bid bs), with_books bs d)).

(** Modelled from the spec: the insert carries only [member_id] and
    [book_id]; the store fills in the identifier, the borrow timestamp
    (its clock) and an absent return timestamp. *)
Definition insert_borrow_record (mid bid : Z) : M (list BorrowRecord) :=
  execute (fun now d =>
    let row := mkBorrowRecord (fresh_id (map record_id (borrow_records d)))
                 mid bid now None in
    (Val [row], with_borrow_records (borrow_records d ++ [row]) d)).

Definition borrow_book (mid bid : Z) : M (Reply (list BorrowRecord)) :=
  book <- select_stock bid;;
  if is_none book || (get_stock book <=? 0)
  then ret (Error BookNotAvailable)
  else
    try_except
      (write_stock bid (get_stock book - 1);;;
       record <- insert_borrow_record mid bid;;
       ret (Ok record))
      (fun e => ret (Error (TransactionFailed e))).

Definition return_book (rid : Z) : M (Reply unit) :=
  record <- execute (fun _ d =>
    (single (eq_ record_id rid (borrow_records d)), d));;
  match record with
  | None => ret (Error RecordNotFound)
  | Some rec =>
      if negb (is_none (return_date rec))
      then ret (Error BookAlreadyReturned)
      else
        try_except
          (now <- utcnow;;
           execute (fun _ d =>
             let rs := update_eq (set_return_date now) record_id rid
                         (borrow_records d) in
             (Val (eq_ record_id rid rs), with_borrow_records rs d));;;
           book <- select_stock (loan_book_id rec);;
           write_stock (loan_book_id rec) (get_stock book + 1);;;
           ret (Ok tt))
          (fun e => ret (Error (TransactionFailed e)))
  end.

(** ** Reports *)

Definition report_top_books `{Backend} : M (list AggRow) :=
  try_except
    (execute (fun _ d => (Val (or_nil (rpc_data "top_books" d)), d)))
    (fun _ => ret []).

(** [timedelta(days=n)] in microseconds. *)
Definition days (n : Z) : Z := n * 86400000000.

Definition overdue_row (r : BorrowRecord) : OverdueRow :=
  mkOverdueRow (record_id r) (loan_member_id r) (loan_book_id r)
    (borrow_date r).

Definition report_overdue : M (list OverdueRow) :=
  now <- utcnow;;
  let overdue_limit := now - days 14 in
  execute (fun _ d =>
    (Val (map overdue_row
            (lt_ borrow_date overdue_limit
               (is_null return_date (borrow_records d)))), d)).

Definition report_member_borrows `{Backend} : M (list AggRow) :=
  try_except
    (execute (fun _ d => (Val (or_nil (rpc_data "member_borrow_count" d)), d)))
    (fun _ => ret []).

(** ** The operations offered to the command loop *)

Inductive Op :=
| AddMember (name email : string)
| ListMembers
| UpdateMember (mid : Z) (new_email : string)
| DeleteMember (mid : Z)
| AddBook (title author category : string) (stock : Z)
| ListBooks
| UpdateBookStock (bid new_stock : Z)
| DeleteBook (bid : Z)
| SearchBooks (keyword : string)
| BorrowBook (mid bid : Z)
| ReturnBook (rid : Z)
| ReportTopBooks
| ReportOverdue
| ReportMemberBorrows.

(** The world an operation leaves behind, whatever it printed. *)
Definition run_op `{Backend} (op : Op) (w : World) : World :=
  match op with
  | AddMember n e => snd (add_member n e w)
  | ListMembers => snd (list_members w)
  | UpdateMember mid e => snd (update_member mid e w)
  | DeleteMember mid => snd (delete_member mid w)
  | AddBook t a c s => snd (add_book t a c s w)
  | ListBooks => snd (list_books w)
  | UpdateBookStock bid s => snd (update_book_stock bid s w)
  | DeleteBook bid => snd (delete_book bid w)
  | SearchBooks k => snd (search_books k w)
  | BorrowBook mid bid => snd (borrow_book mid bid w)
  | ReturnBook rid => snd (return_book rid w)
  | ReportTopBooks => snd (report_top_books w)
  | ReportOverdue => snd (report_overdue w)
  | ReportMemberBorrows => snd (report_member_borrows w)
  end.

(** Between two operations the clock and the fault plan are the
    environment's: a history is a list of operations, each with the
    clock reading and the plan it runs under. *)
Definition Call : Type := Z * list bool * Op.

Definition run_call `{Backend} (w : World) (c : Call) : World :=
  let '(t, fs, op) := c in run_op op (mkWorld (db w) t fs).

Definition run_history `{Backend} (h : list Call) (w : World) : World :=
  fold_left run_call h w.

(** ** Observations used in the statements *)

Definition stock_of (bid : Z) (d : Database) : list Z :=
  map stock (eq_ book_id bid (books d)).

Definition stocks_nonneg (d : Database) : Prop :=
  Forall (fun b => 0 <= stock b) (books d).

Definition is_open (r : BorrowRecord) : bool := is_none (return_date r).

(** The first [n] round trips from [w] on are answered. *)
Definition answers (n : nat) (w : World) : Prop :=
  forallb negb (firstn n (faults w)) = true.

(** ** A store to run the module against *)

Definition lower (c : ascii) : ascii :=
  let n := nat_of_ascii c in
  if ((65 <=? n) && (n <=? 90))%nat then ascii_of_nat (n + 32) else c.

(** Pattern test with [%] for any run of characters and [_] for any one
    character, letters compared without case. *)
Fixpoint like (p : string) : string -> bool :=
  match p with
  | EmptyString => is_empty
  | String c p' =>
      if Ascii.eqb c "%" then
        fix any (s : string) : bool :=
          like p' s ||
          match s with EmptyString => false | String _ s' => any s' end
      else
        fun s =>
          match s with
          | EmptyString => false
          | String x s' =>
              (Ascii.eqb c "_" || Ascii.eqb (lower c) (lower x)) && like p' s'
          end
  end.

Definition local_store : Backend :=
  mkBackend (Z * Z) (fun value pattern => like pattern value) (fun _ _ => None).

Definition go_book : Book :=
  mkBook 1 "The Go Programming Language" "Rob Pike" "Systems" 1.

Definition shelf : World :=
  mkWorld (mkDatabase [mkMember 7 "Ada" "ada@example.org" 0] [go_book] []) 1000 [].




Definition lookup_record (rid : Z) (d : Database) : list BorrowRecord :=
  eq_ record_id rid (borrow_records d).


(** The stock values an operation is handed are not negative. *)
Definition supplied_stock_nonneg (op : Op) : Prop :=
  match op with
  | AddBook _ _ _ s => 0 <= s
  | UpdateBookStock _ s => 0 <= s
  | _ => True
  end.


(** The row a borrow inserts and the tables it leaves. *)
Definition borrowed_row (mid bid : Z) (w : World) : BorrowRecord :=
  mkBorrowRecord (fresh_id (map record_id (borrow_records (db w))))
    mid bid (clock w) None.

Definition after_borrow (mid bid s : Z) (w : World) : Database :=
  with_borrow_records (borrow_records (db w) ++ [borrowed_row mid bid w])
    (with_books (update_eq (set_stock (s - 1)) book_id bid (books (db w)))
       (db w)).

(** Some open loan record carries [id] in column [col]. *)
Definition has_open_loan (col : BorrowRecord -> Z) (id : Z) (d : Database)
    : Prop :=
  exists r, In r (borrow_records d) /\ col r = id /\ return_date r = None.

(** Member 1 holds the only copy of book 1. *)
Definition on_loan : World :=
  mkWorld (mkDatabase [mkMember 1 "Ada" "ada@example.org" 0]
             [set_stock 0 go_book]
             [mkBorrowRecord 1 1 1 400 None]) 1000 [].

(** The tables a return of the open record [rec] leaves when the book's
    stock read [s]. *)
Definition after_return (rec : BorrowRecord) (s : Z) (w : World) : Database :=
  with_books
    (update_eq (set_stock (s + 1)) book_id (loan_book_id rec) (books (db w)))
    (with_borrow_records
       (update_eq (set_return_date (clock w)) record_id (record_id rec)
          (borrow_records (db w)))
       (db w)).

(** [triple P m Q]: run from tables satisfying [P], the computation [m]
    ends, with a value or with an exception, in tables satisfying [Q],
    under every fault plan and clock. *)
Definition triple {A} (P : Database -> Prop) (m : M A)
    (Q : Res A -> Database -> Prop) : Prop :=
  forall w, P (db w) -> Q (fst (m w)) (db (snd (m w))).

(** [m] keeps the table property [I]. *)
Definition keeps {A} (I : Database -> Prop) (m : M A) : Prop :=
  triple I m (fun _ d => I d).

(** The rows found under the identifier of [rec] are [rec] alone. *)
Definition stored (rec : BorrowRecord) (d : Database) : Prop :=
  lookup_record (record_id rec) d = [rec].


(** ** Further observations *)


(** The reply is the ["Transaction failed: ..."] error. *)
Definition transaction_failed {A} (r : Res (Reply A)) : Prop :=
  exists e, r = Val (Error (TransactionFailed e)).

(** Number of open loan records on a book. *)
Definition open_count (bid : Z) (d : Database) : nat :=
  List.length (is_null return_date (eq_ loan_book_id bid (borrow_records d))).

(** What never changes in a loan record once it is written. *)
Definition loan_core (r : BorrowRecord) : Z * Z * Z * Z :=
  (record_id r, loan_member_id r, loan_book_id r, borrow_date r).

(** What never changes in a book row short of deleting it. *)
Definition book_card (b : Book) : Z * string * string * string :=
  (book_id b, title b, author b, category b).

(** An open loan on the only copy, with the store failing at the third
    round trip of the next call. *)
Definition lent_out (fs : list bool) : World :=
  mkWorld (mkDatabase [mkMember 7 "Ada" "ada@example.org" 0]
             [set_stock 0 go_book]
             [mkBorrowRecord 1 7 1 400 None]) 1000 fs.

(** ** Which table writes a property of the tables is blind to *)

Definition ignores_members (I : Database -> Prop) : Prop :=
  forall ms d, I d -> I (with_members ms d).

Definition ignores_books (I : Database -> Prop) : Prop :=
  forall bs d, I d -> I (with_books bs d).

Definition ignores_stock (I : Database -> Prop) : Prop :=
  forall s bid d,
    I d -> I (with_books (update_eq (set_stock s) book_id bid (books d)) d).

Definition ignores_new_loans (I : Database -> Prop) : Prop :=
  forall row d, I d -> I (with_borrow_records (borrow_records d ++ [row]) d).

Definition ignores_closing (I : Database -> Prop) : Prop :=
  forall now rid d,
    I d ->
    I (with_borrow_records
         (update_eq (set_return_date now) record_id rid (borrow_records d)) d).

(** Which operations issue which writes. *)
Definition writes_members (op : Op) : bool :=
  match op with
  | AddMember _ _ | UpdateMember _ _ | DeleteMember _ => true
  | _ => false
  end.

Definition reshapes_books (op : Op) : bool :=
  match op with
  | AddBook _ _ _ _ | DeleteBook _ => true
  | _ => false
  end.

Definition writes_loans (op : Op) : bool :=
  match op with
  | BorrowBook _ _ | ReturnBook _ => true
  | _ => false
  end.

Definition call_op (c : Call) : Op := snd c.

(** The loan records of [d] start with the records [l], return dates
    aside. *)
Definition extends_loans (l : list (Z * Z * Z * Z)) (d : Database) : Prop :=
  exists more, map loan_core (borrow_records d) = l ++ more.

(** A call of [borrow_book] on book [bid] run with no round trip failing. *)
Definition is_borrow_of (bid : Z) (c : Call) : bool :=
  match c with
  | (_, [], BorrowBook _ b) => b =? bid
  | _ => false
  end.




(** ** The command loop

    [main] reads lines with [input] and writes with [print].  The console
    is the lines still to be read, what has been printed so far, and the
    world of the store.  Prompts are not recorded.  What ends [main]
    early is an exception nobody catches: one from the store, the
    [ValueError] of [int(...)] on a line that is no integer, or the
    [EOFError] of [input] when no line is left. *)

Inductive Message :=
| NoMatchesFound   (* "No matches found." *)
| Goodbye          (* "Goodbye!" *)
| InvalidChoice.   (* "Invalid choice" *)

(** One [print], or one run of prints of fixed text. *)
Inductive Out (Agg : Type) :=
| Menu                                          (* the thirteen menu lines *)
| ReportsMenu                                   (* "Reports" and its three lines *)
| Say (m : Message)
| BookLine (b : Book)                           (* [print_book(b)] *)
| MemberLine (m : Member)                       (* [print_member(m)] *)
| ShowMembers (data : list Member)
| ShowBooks (data : list Book)
| ShowMemberReply (r : Reply (list Member))
| ShowBookReply (r : Reply (list Book))
| ShowBorrowReply (r : Reply (list BorrowRecord))
| ShowReturnReply (r : Reply unit)
| ShowAggregate (rows : list Agg)
| ShowOverdue (rows : list OverdueRow).
Arguments Menu {Agg}.
Arguments ReportsMenu {Agg}.
Arguments Say {Agg} m.
Arguments BookLine {Agg} b.
Arguments MemberLine {Agg} m.
Arguments ShowMembers {Agg} data.
Arguments ShowBooks {Agg} data.
Arguments ShowMemberReply {Agg} r.
Arguments ShowBookReply {Agg} r.
Arguments ShowBorrowReply {Agg} r.
Arguments ShowReturnReply {Agg} r.
Arguments ShowAggregate {Agg} rows.
Arguments ShowOverdue {Agg} rows.

Record Console (Agg : Type) := mkConsole
  { stdin : list string; stdout : list (Out Agg); store : World }.
Arguments mkConsole {Agg} stdin stdout store.
Arguments stdin {Agg} c.
Arguments stdout {Agg} c.
Arguments store {Agg} c.

Inductive Crash :=
| StoreError (e : Exn)
| ValueError
| EOFError.

Inductive Ran (A : Type) :=
| Fine (a : A)
| Died (e : Crash).
Arguments Fine {A} a.
Arguments Died {A} e.

Definition IO `{Backend} (A : Type) : Type :=
  Console AggRow -> Ran A * Console AggRow.

Definition io_ret `{Backend} {A} (a : A) : IO A := fun c => (Fine a, c).

Definition io_bind `{Backend} {A B} (m : IO A) (k : A -> IO B) : IO B :=
  fun c => match m c with
           | (Fine a, c') => k a c'
           | (Died e, c') => (Died e, c')
           end.

Notation "x <~ m ;; k" := (io_bind m (fun x => k))
  (at level 61, m at next level, right associativity) : lms_scope.
Notation "m ~;; k" := (io_bind m (fun _ => k))
  (at level 61, right associativity) : lms_scope.

(** A call into the module: its exceptions are not caught. *)
Definition call `{Backend} {A} (m : M A) : IO A :=
  fun c => match m (store c) with
           | (Val a, w) => (Fine a, mkConsole (stdin c) (stdout c) w)
           | (Exc e, w) => (Died (StoreError e), mkConsole (stdin c) (stdout c) w)
           end.

Definition print `{Backend} (o : Out AggRow) : IO unit :=
  fun c => (Fine tt, mkConsole (stdin c) (stdout c ++ [o]) (store c)).

(** [input(prompt).strip()] *)
Definition input `{Backend} : IO string :=
  fun c => match stdin c with
           | [] => (Died EOFError, c)
           | line :: rest =>
               (Fine (strip line), mkConsole rest (stdout c) (store c))
           end.

Definition digit_value (c : ascii) : option Z :=
  let n := nat_of_ascii c in
  if ((48 <=? n) && (n <=? 57))%nat then Some (Z.of_nat (n - 48)) else None.

(** Decimal digits, single underscores allowed between two digits. *)
Fixpoint parse_digits (s : string) (acc : Z) (after_digit : bool)
    : option Z :=
  match s with
  | EmptyString => if after_digit then Some acc else None
  | String c s' =>
      match digit_value c with
      | Some v => parse_digits s' (10 * acc + v) true
      | None =>
          if Ascii.eqb c "_" && after_digit
          then parse_digits s' acc false
          else None
      end
  end.

(** [int(s)] on the ASCII range: blanks around, an optional sign, digits. *)
Definition int_of_string (s : string) : option Z :=
  match strip s with
  | String "-" s' => option_map Z.opp (parse_digits s' 0 false)
  | String "+" s' => parse_digits s' 0 false
  | s' => parse_digits s' 0 false
  end.

(** [int(input(prompt).strip())] *)
Definition input_int `{Backend} : IO Z :=
  s <~ input;;
  match int_of_string s with
  | Some z => io_ret z
  | None => fun c => (Died ValueError, c)
  end.

Definition print_book `{Backend} (b : Book) : IO unit := print (BookLine b).

Definition print_member `{Backend} (m : Member) : IO unit :=
  print (MemberLine m).

(** [for b in rows: print_book(b)] *)
Fixpoint print_books `{Backend} (rows : list Book) : IO unit :=
  match rows with
  | [] => io_ret tt
  | b :: rest => print_book b ~;; print_books rest
  end.

(** One turn of [while True]: [true] to go on, [false] after [break]. *)
Definition main_body `{Backend} : IO bool :=
  print Menu ~;;
  choice <~ input;;
  if (choice =? "1")%string then
    name <~ input;;
    email <~ input;;
    data <~ call (add_member name email);;
    print (ShowMembers data) ~;; io_ret true
  else if (choice =? "2")%string then
    title <~ input;;
    author <~ input;;
    category <~ input;;
    stock <~ input_int;;
    data <~ call (add_book title author category stock);;
    print (ShowBooks data) ~;; io_ret true
  else if (choice =? "3")%string then
    keyword <~ input;;
    results <~ call (search_books keyword);;
    match results with
    | [] => print (Say NoMatchesFound)
    | _ :: _ => print_books results
    end ~;; io_ret true
  else if (choice =? "4")%string then
    rows <~ call list_books;;
    print_books rows ~;; io_ret true
  else if (choice =? "5")%string then
    bid <~ input_int;;
    new_stock <~ input_int;;
    data <~ call (update_book_stock bid new_stock);;
    print (ShowBooks data) ~;; io_ret true
  else if (choice =? "6")%string then
    mid <~ input_int;;
    new_email <~ input;;
    data <~ call (update_member mid new_email);;
    print (ShowMembers data) ~;; io_ret true
  else if (choice =? "7")%string then
    bid <~ input_int;;
    r <~ call (delete_book bid);;
    print (ShowBookReply r) ~;; io_ret true
  else if (choice =? "8")%string then
    mid <~ input_int;;
    r <~ call (delete_member mid);;
    print (ShowMemberReply r) ~;; io_ret true
  else if (choice =? "9")%string then
    mid <~ input_int;;
    bid <~ input_int;;
    r <~ call (borrow_book mid bid);;
    print (ShowBorrowReply r) ~;; io_ret true
  else if (choice =? "10")%string then
    rid <~ input_int;;
    r <~ call (return_book rid);;
    print (ShowReturnReply r) ~;; io_ret true
  else if (choice =? "11")%string then
    print ReportsMenu ~;;
    rch <~ input;;
    (if (rch =? "1")%string then
       rows <~ call report_top_books;; print (ShowAggregate rows)
     else if (rch =? "2")%string then
       rows <~ call report_overdue;; print (ShowOverdue rows)
     else if (rch =? "3")%string then
       rows <~ call report_member_borrows;; print (ShowAggregate rows)
     else io_ret tt) ~;;
    io_ret true
  else if (choice =? "12")%string then
    print (Say Goodbye) ~;; io_ret false
  else
    print (Say InvalidChoice) ~;; io_ret true.

(** [while True: ...] with a bound on the turns; [None] when the bound is
    reached before the loop has ended. *)
Fixpoint main_loop `{Backend} (fuel : nat) (c : Console AggRow)
    : option (Ran unit * Console AggRow) :=
  match fuel with
  | O => None
  | S fuel' =>
      match main_body c with
      | (Fine true, c') => main_loop fuel' c'
      | (Fine false, c') => Some (Fine tt, c')
      | (Died e, c') => Some (Died e, c')
      end
  end.

(** Every turn reads a line, so one turn more than there are lines is
    bound enough. *)
Definition main `{Backend} (c : Console AggRow)
    : option (Ran unit * Console AggRow) :=
  main_loop (S (List.length (stdin c))) c.




(** * Round trips *)

Lemma execute_eq {A} (q : Z -> Database -> Res A * Database) (w : World) :
  execute q w =
  if hd false (faults w)
  then (Exc StoreUnavailable, set_faults (tl (faults w)) w)
  else (fst (q (clock w) (db w)),
        mkWorld (snd (q (clock w) (db w))) (clock w) (tl (faults w))).
Proof.
  unfold execute.
  destruct w as [d t [|[] fs]]; simpl; try reflexivity;
    destruct (q t d); reflexivity.
Qed.

Lemma answers_S (n : nat) (w : World) :
  answers (S n) w ->
  hd false (faults w) = false /\
  forall d, answers n (mkWorld d (clock w) (tl (faults w))).
Proof.
  unfold answers. destruct w as [d t [|b fs]]; simpl.
  - intros _. split; [reflexivity|]. intros _. destruct n; reflexivity.
  - rewrite andb_true_iff. intros [Hb Hfs]. destruct b; [discriminate|].
    split; [reflexivity|]. intros _. exact Hfs.
Qed.

Lemma answers_le (n m : nat) (w : World) :
  (n <= m)%nat -> answers m w -> answers n w.
Proof.
  unfold answers. intros Hle.
  generalize (faults w) as fs. revert m Hle.
  induction n as [|n IH]; intros m Hle fs H; [reflexivity|].
  destruct m as [|m]; [lia|].
  destruct fs as [|b fs]; [reflexivity|]. simpl in *.
  rewrite andb_true_iff in *. destruct H as [Hb H]. split; [exact Hb|].
  apply (IH m); [lia | exact H].
Qed.

(** An answered round trip. *)
Lemma execute_answers {A} (q : Z -> Database -> Res A * Database) n w :
  answers (S n) w ->
  execute q w =
    (fst (q (clock w) (db w)),
     mkWorld (snd (q (clock w) (db w))) (clock w) (tl (faults w))) /\
  answers n (mkWorld (snd (q (clock w) (db w))) (clock w) (tl (faults w))).
Proof.
  intros H. apply answers_S in H. destruct H as [Hhd Hn].
  rewrite execute_eq, Hhd. split; [reflexivity | apply Hn].
Qed.

(** * Tables *)

Lemma filter_filter {A} (f g : A -> bool) (l : list A) :
  filter f (filter g l) = filter (fun x => g x && f x) l.
Proof.
  induction l as [|x l IH]; simpl; [reflexivity|].
  destruct (g x); simpl; [destruct (f x)|]; rewrite IH; reflexivity.
Qed.

Lemma eq_update_same {R} (patch : R -> R) (col : R -> Z) v (rows : list R) :
  (forall r, col (patch r) = col r) ->
  eq_ col v (update_eq patch col v rows) = map patch (eq_ col v rows).
Proof.
  intros Hcol. unfold eq_, update_eq.
  induction rows as [|r rows IH]; simpl; [reflexivity|].
  destruct (col r =? v) eqn:E; simpl.
  - rewrite Hcol, E. simpl. rewrite IH. reflexivity.
  - rewrite E. exact IH.
Qed.

Lemma eq_update_other {R} (patch : R -> R) (col : R -> Z) v v'
    (rows : list R) :
  (forall r, col (patch r) = col r) -> v <> v' ->
  eq_ col v (update_eq patch col v' rows) = eq_ col v rows.
Proof.
  intros Hcol Hne. unfold eq_, update_eq.
  induction rows as [|r rows IH]; simpl; [reflexivity|].
  destruct (col r =? v') eqn:E'.
  - apply Z.eqb_eq in E'. rewrite Hcol.
    assert ((col r =? v) = false) as -> by (apply Z.eqb_neq; lia).
    exact IH.
  - destruct (col r =? v); rewrite IH; reflexivity.
Qed.

Lemma eq_app {R} (col : R -> Z) v (l1 l2 : list R) :
  eq_ col v (l1 ++ l2) = eq_ col v l1 ++ eq_ col v l2.
Proof. unfold eq_. apply filter_app. Qed.

Lemma eq_none {R} (col : R -> Z) v (rows : list R) :
  ~ In v (map col rows) -> eq_ col v rows = [].
Proof.
  unfold eq_. induction rows as [|r rows IH]; simpl; [reflexivity|].
  intros Hn. destruct (col r =? v) eqn:E.
  - apply Z.eqb_eq in E. tauto.
  - apply IH. tauto.
Qed.

Lemma fresh_id_above (ids : list Z) (x : Z) : In x ids -> x < fresh_id ids.
Proof.
  unfold fresh_id. induction ids as [|y ids IH]; cbn [fold_right In]; [tauto|].
  intros [->|Hin]; [lia|]. specialize (IH Hin). lia.
Qed.

Lemma fresh_id_new (ids : list Z) : ~ In (fresh_id ids) ids.
Proof. intros Hin. apply fresh_id_above in Hin. lia. Qed.

Lemma map_stock_set (s : Z) (bs : list Book) :
  map stock (map (set_stock s) bs) = map (fun _ => s) bs.
Proof. rewrite map_map. reflexivity. Qed.

Lemma stock_of_written bid s s0 (d : Database) :
  stock_of bid d = [s0] ->
  stock_of bid (with_books (update_eq (set_stock s) book_id bid (books d)) d)
  = [s].
Proof.
  unfold stock_of. simpl. intros H.
  rewrite eq_update_same by reflexivity. rewrite map_stock_set.
  destruct (eq_ book_id bid (books d)) as [|b [|b' l]]; simpl in *;
    try discriminate. reflexivity.
Qed.

(** * Borrowing *)

(** Runs the next [.execute()] of the goal as an answered round trip. *)
Ltac trip H :=
  match type of H with
  | answers (S ?n) ?w =>
      match goal with
      | |- context [execute ?q w] =>
          let E := fresh "E" in
          destruct (execute_answers q n w H) as [E ?];
          rewrite E; clear E H; cbn [fst snd db clock faults] in *
      end
  end.

Lemma borrow_book_success mid bid s w :
  answers 3 w -> stock_of bid (db w) = [s] -> 0 < s ->
  borrow_book mid bid w =
    (Val (Ok [borrowed_row mid bid w]),
     mkWorld (after_borrow mid bid s w) (clock w) (tl (tl (tl (faults w))))).
Proof.
  intros H Hs Hpos.
  unfold borrow_book, select_stock, write_stock, insert_borrow_record,
    try_except, bind.
  trip H. fold (stock_of bid (db w)). rewrite Hs. cbn [single is_none get_stock orb].
  assert ((s <=? 0) = false) as -> by (apply Z.leb_gt; exact Hpos).
  trip H0. trip H. reflexivity.
Qed.

Lemma borrow_book_unavailable mid bid w :
  answers 1 w ->
  stock_of bid (db w) = [] \/ (exists s, stock_of bid (db w) = [s] /\ s <= 0) ->
  borrow_book mid bid w =
    (Val (Error BookNotAvailable), mkWorld (db w) (clock w) (tl (faults w))).
Proof.
  intros H Hs.
  unfold borrow_book, select_stock, bind.
  trip H. fold (stock_of bid (db w)).
  destruct Hs as [Hs | [s [Hs Hle]]]; rewrite Hs; cbn [single is_none get_stock orb].
  - reflexivity.
  - assert ((s <=? 0) = true) as -> by (apply Z.leb_le; exact Hle).
    reflexivity.
Qed.

(** C1, as the code behaves: when the stock write is answered and the
    insert of the loan record then fails, [borrow_book] reports
    "Transaction failed" and leaves the stock one lower than before, with
    no loan record written.  The decrement is not undone. *)
Theorem borrow_book_failed_insert_keeps_decrement mid bid s w fs :
  faults w = false :: false :: true :: fs ->
  stock_of bid (db w) = [s] -> 0 < s ->
  fst (borrow_book mid bid w) = Val (Error (TransactionFailed StoreUnavailable))
  /\ stock_of bid (db (snd (borrow_book mid bid w))) = [s - 1]
  /\ borrow_records (db (snd (borrow_book mid bid w))) = borrow_records (db w).
Proof.
  intros Hf Hs Hpos.
  assert (borrow_book mid bid w =
          (Val (Error (TransactionFailed StoreUnavailable)),
           mkWorld (with_books (update_eq (set_stock (s - 1)) book_id bid
                                  (books (db w))) (db w)) (clock w) fs)) as E.
  { unfold borrow_book, select_stock, write_stock, insert_borrow_record,
      try_except, bind.
    rewrite execute_eq, Hf. cbn [hd tl fst snd].
    fold (stock_of bid (db w)). rewrite Hs. cbn [single is_none get_stock orb].
    assert ((s <=? 0) = false) as -> by (apply Z.leb_gt; exact Hpos).
    rewrite execute_eq. cbn [hd tl fst snd faults clock db].
    rewrite execute_eq. cbn [hd tl fst snd faults clock db].
    reflexivity. }
  rewrite E. cbn [fst snd db]. repeat split.
  apply (stock_of_written bid (s - 1) s). exact Hs.
Qed.

Lemma borrow_book_failed_insert_witness :
  fst (borrow_book 7 1 (mkWorld (db shelf) 1000 [false; false; true]))
    = Val (Error (TransactionFailed StoreUnavailable))
  /\ stock_of 1 (db shelf) = [1]
  /\ stock_of 1 (db (snd (borrow_book 7 1
                       (mkWorld (db shelf) 1000 [false; false; true])))) = [0].
Proof.
  destruct (borrow_book_failed_insert_keeps_decrement 7 1 1
              (mkWorld (db shelf) 1000 [false; false; true]) [])
    as [H1 [H2 _]]; [reflexivity | reflexivity | lia |].
  split; [exact H1 | split; [reflexivity | exact H2]].
Defined.

(** Scenarios A and B of the spec: one copy, borrowed, refused to the next
    member, returned, and refused a second return. *)
Example one_copy_round :
  let w1 := snd (borrow_book 7 1 shelf) in
  let w2 := snd (return_book 1 w1) in
  fst (borrow_book 7 1 shelf) = Val (Ok [mkBorrowRecord 1 7 1 1000 None]) /\
  stock_of 1 (db w1) = [0] /\
  fst (borrow_book 8 1 w1) = Val (Error BookNotAvailable) /\
  fst (return_book 1 w1) = Val (Ok tt) /\
  stock_of 1 (db w2) = [1] /\
  borrow_records (db w2) = [mkBorrowRecord 1 7 1 1000 (Some 1000)] /\
  fst (return_book 1 w2) = Val (Error BookAlreadyReturned).
Proof. repeat split. Qed.

Lemma stock_of_after_borrow mid bid s w :
  stock_of bid (db w) = [s] ->
  stock_of bid (after_borrow mid bid s w) = [s - 1].
Proof. intros Hs. apply (stock_of_written bid (s - 1) s (db w) Hs). Qed.

Lemma borrowed_row_new mid bid w :
  lookup_record (record_id (borrowed_row mid bid w)) (db w) = [].
Proof. apply eq_none. apply fresh_id_new. Qed.




(** C10: [borrow_book] never looks at the members table.  For every
    member identifier, one no member row carries included, borrowing a
    book that is there with stock > 0 succeeds when the store answers: the
    stock goes down by one and a new open loan record naming that member
    identifier is appended; the reply is the same whatever the members
    table holds. *)
Theorem borrow_book_never_checks_member mid bid s w :
  answers 3 w -> stock_of bid (db w) = [s] -> 0 < s ->
  exists rec,
    fst (borrow_book mid bid w) = Val (Ok [rec]) /\
    loan_member_id rec = mid /\ loan_book_id rec = bid /\
    return_date rec = None /\
    stock_of bid (db (snd (borrow_book mid bid w))) = [s - 1] /\
    borrow_records (db (snd (borrow_book mid bid w)))
      = borrow_records (db w) ++ [rec] /\
    members (db (snd (borrow_book mid bid w))) = members (db w) /\
    forall ms,
      fst (borrow_book mid bid (set_db (with_members ms (db w)) w))
      = Val (Ok [rec]).
Proof.
  intros H Hs Hpos. exists (borrowed_row mid bid w).
  rewrite (borrow_book_success mid bid s w H Hs Hpos). cbn [fst snd db].
  repeat split.
  - apply stock_of_after_borrow. exact Hs.
  - intros ms.
    rewrite (borrow_book_success mid bid s
               (set_db (with_members ms (db w)) w) H Hs Hpos).
    reflexivity.
Qed.

Lemma borrow_book_never_checks_member_witness :
  eq_ member_id 42 (members (db shelf)) = [] /\
  exists rec,
    fst (borrow_book 42 1 shelf) = Val (Ok [rec]) /\ loan_member_id rec = 42.
Proof.
  split; [reflexivity|].
  destruct (borrow_book_never_checks_member 42 1 1 shelf)
    as [rec [H1 [H2 _]]]; [reflexivity | reflexivity | lia |].
  exists rec. split; assumption.
Defined.

(** * Reports *)

(** C9: when the round trip to the aggregation function fails,
    [report_top_books] and [report_member_borrows] each answer with the
    empty list, not with an exception, and leave the tables alone. *)
Theorem reports_fall_back_to_empty `{Backend} (w : World) :
  hd false (faults w) = true ->
  fst (report_top_books w) = Val [] /\
  fst (report_member_borrows w) = Val [] /\
  db (snd (report_top_books w)) = db w /\
  db (snd (report_member_borrows w)) = db w.
Proof.
  intros Hf. unfold report_top_books, report_member_borrows, try_except.
  rewrite !execute_eq, Hf. repeat split.
Qed.

Lemma reports_fall_back_to_empty_witness :
  fst (@report_top_books local_store (set_faults [true] shelf)) = Val [] /\
  fst (@report_member_borrows local_store (set_faults [true] shelf)) = Val [].
Proof.
  destruct (@reports_fall_back_to_empty local_store (set_faults [true] shelf))
    as [H1 [H2 _]]; [reflexivity|].
  split; assumption.
Defined.




(** * Deleting members and books *)

Lemma open_loans_none (col : BorrowRecord -> Z) id d :
  is_null return_date (eq_ col id (borrow_records d)) = [] <->
  ~ has_open_loan col id d.
Proof.
  unfold is_null, eq_, has_open_loan. rewrite filter_filter. split.
  - intros Hnil [r [Hin [Hcol Hopen]]].
    assert (In r []) as Hr; [|destruct Hr].
    rewrite <- Hnil. apply filter_In. split; [exact Hin|].
    rewrite Hopen. simpl. rewrite andb_true_r. apply Z.eqb_eq. exact Hcol.
  - intros Hno.
    destruct (filter _ (borrow_records d)) as [|r l] eqn:E; [reflexivity|].
    exfalso. apply Hno. exists r.
    assert (In r (r :: l)) as Hr by (left; reflexivity).
    rewrite <- E in Hr. apply filter_In in Hr. destruct Hr as [Hin Hb].
    apply andb_true_iff in Hb. destruct Hb as [Hc Ho].
    apply Z.eqb_eq in Hc. destruct (return_date r); [discriminate|].
    repeat split; assumption.
Qed.

Lemma delete_eq_in {R} (col : R -> Z) v (rows : list R) (x : R) :
  In x (delete_eq col v rows) <-> In x rows /\ col x <> v.
Proof.
  unfold delete_eq. rewrite filter_In, negb_true_iff, Z.eqb_neq. tauto.
Qed.

Lemma eq_delete_same {R} (col : R -> Z) v (rows : list R) :
  eq_ col v (delete_eq col v rows) = [].
Proof.
  unfold eq_, delete_eq. rewrite filter_filter.
  induction rows as [|r rows IH]; simpl; [reflexivity|].
  destruct (col r =? v); simpl; exact IH.
Qed.

Lemma delete_member_refused mid w :
  answers 1 w -> has_open_loan loan_member_id mid (db w) ->
  delete_member mid w =
    (Val (Error MemberHasBorrowedBooks),
     mkWorld (db w) (clock w) (tl (faults w))).
Proof.
  intros H Hopen. unfold delete_member, bind. trip H.
  destruct (is_null return_date (eq_ loan_member_id mid (borrow_records (db w))))
    as [|r l] eqn:E; [|reflexivity].
  apply open_loans_none in E. contradiction.
Qed.

Lemma delete_member_done mid w :
  answers 2 w -> ~ has_open_loan loan_member_id mid (db w) ->
  delete_member mid w =
    (Val (Ok (eq_ member_id mid (members (db w)))),
     mkWorld (with_members (delete_eq member_id mid (members (db w))) (db w))
       (clock w) (tl (tl (faults w)))).
Proof.
  intros H Hno. unfold delete_member, bind. trip H.
  apply open_loans_none in Hno. rewrite Hno. trip H0. reflexivity.
Qed.

Lemma delete_book_refused bid w :
  answers 1 w -> has_open_loan loan_book_id bid (db w) ->
  delete_book bid w =
    (Val (Error BookCurrentlyBorrowed),
     mkWorld (db w) (clock w) (tl (faults w))).
Proof.
  intros H Hopen. unfold delete_book, bind. trip H.
  destruct (is_null return_date (eq_ loan_book_id bid (borrow_records (db w))))
    as [|r l] eqn:E; [|reflexivity].
  apply open_loans_none in E. contradiction.
Qed.

Lemma delete_book_done bid w :
  answers 2 w -> ~ has_open_loan loan_book_id bid (db w) ->
  delete_book bid w =
    (Val (Ok (eq_ book_id bid (books (db w)))),
     mkWorld (with_books (delete_eq book_id bid (books (db w))) (db w))
       (clock w) (tl (tl (faults w)))).
Proof.
  intros H Hno. unfold delete_book, bind. trip H.
  apply open_loans_none in Hno. rewrite Hno. trip H0. reflexivity.
Qed.

Lemma has_open_loan_dec (col : BorrowRecord -> Z) id d :
  has_open_loan col id d \/ ~ has_open_loan col id d.
Proof.
  destruct (is_null return_date (eq_ col id (borrow_records d)))
    as [|r l] eqn:E.
  - right. apply open_loans_none. exact E.
  - left. exists r.
    assert (In r (r :: l)) as Hr by (left; reflexivity).
    rewrite <- E in Hr. unfold is_null, eq_ in Hr.
    rewrite filter_filter in Hr. apply filter_In in Hr.
    destruct Hr as [Hin Hb]. apply andb_true_iff in Hb.
    destruct Hb as [Hc Ho]. apply Z.eqb_eq in Hc.
    destruct (return_date r); [discriminate|]. repeat split; assumption.
Qed.

(** C4: with the store answering, [delete_member] / [delete_book] answers
    with its "cannot delete" error exactly when some open loan record
    names the member / the book, and then changes no table; when no open
    loan record names it, the delete goes through: no row with that
    identifier is left, every other row stays, and the other tables are
    untouched. *)
Theorem delete_refused_iff_open_loan (id : Z) (w : World) :
  answers 2 w ->
  (fst (delete_member id w) = Val (Error MemberHasBorrowedBooks) <->
     has_open_loan loan_member_id id (db w)) /\
  (has_open_loan loan_member_id id (db w) ->
     db (snd (delete_member id w)) = db w) /\
  (~ has_open_loan loan_member_id id (db w) ->
     fst (delete_member id w) = Val (Ok (eq_ member_id id (members (db w)))) /\
     eq_ member_id id (members (db (snd (delete_member id w)))) = [] /\
     (forall m, In m (members (db (snd (delete_member id w)))) <->
                In m (members (db w)) /\ member_id m <> id) /\
     books (db (snd (delete_member id w))) = books (db w) /\
     borrow_records (db (snd (delete_member id w))) = borrow_records (db w)) /\
  (fst (delete_book id w) = Val (Error BookCurrentlyBorrowed) <->
     has_open_loan loan_book_id id (db w)) /\
  (has_open_loan loan_book_id id (db w) ->
     db (snd (delete_book id w)) = db w) /\
  (~ has_open_loan loan_book_id id (db w) ->
     fst (delete_book id w) = Val (Ok (eq_ book_id id (books (db w)))) /\
     eq_ book_id id (books (db (snd (delete_book id w)))) = [] /\
     (forall b, In b (books (db (snd (delete_book id w)))) <->
                In b (books (db w)) /\ book_id b <> id) /\
     members (db (snd (delete_book id w))) = members (db w) /\
     borrow_records (db (snd (delete_book id w))) = borrow_records (db w)).
Proof.
  intros H.
  assert (answers 1 w) as H1 by (apply (answers_le 1 2); [lia | exact H]).
  repeat match goal with |- _ /\ _ => split end.
  - destruct (has_open_loan_dec loan_member_id id (db w)) as [Ho | Hn].
    + rewrite (delete_member_refused id w H1 Ho). tauto.
    + rewrite (delete_member_done id w H Hn). cbn [fst].
      split; [discriminate | contradiction].
  - intros Ho. rewrite (delete_member_refused id w H1 Ho). reflexivity.
  - intros Hn. rewrite (delete_member_done id w H Hn). cbn [fst snd db].
    repeat match goal with |- _ /\ _ => split end; try reflexivity.
    + apply eq_delete_same.
    + intros m. apply delete_eq_in.
  - destruct (has_open_loan_dec loan_book_id id (db w)) as [Ho | Hn].
    + rewrite (delete_book_refused id w H1 Ho). tauto.
    + rewrite (delete_book_done id w H Hn). cbn [fst].
      split; [discriminate | contradiction].
  - intros Ho. rewrite (delete_book_refused id w H1 Ho). reflexivity.
  - intros Hn. rewrite (delete_book_done id w H Hn). cbn [fst snd db].
    repeat match goal with |- _ /\ _ => split end; try reflexivity.
    + apply eq_delete_same.
    + intros b. apply delete_eq_in.
Qed.

Lemma delete_refused_iff_open_loan_witness :
  answers 2 on_loan /\
  fst (delete_member 1 on_loan) = Val (Error MemberHasBorrowedBooks) /\
  fst (delete_book 1 on_loan) = Val (Error BookCurrentlyBorrowed) /\
  db (snd (delete_book 1 on_loan)) = db on_loan.
Proof.
  assert (answers 2 on_loan) as H by reflexivity.
  destruct (delete_refused_iff_open_loan 1 on_loan H)
    as [Hm [_ [_ [Hb [Hsame _]]]]].
  split; [exact H|]. split; [|split].
  - apply Hm. exists (mkBorrowRecord 1 1 1 400 None).
    simpl. repeat split. left. reflexivity.
  - apply Hb. exists (mkBorrowRecord 1 1 1 400 None).
    simpl. repeat split. left. reflexivity.
  - apply Hsame. exists (mkBorrowRecord 1 1 1 400 None).
    simpl. repeat split. left. reflexivity.
Defined.

(** * Returning *)

Lemma return_book_success rec s w :
  answers 4 w ->
  lookup_record (record_id rec) (db w) = [rec] -> return_date rec = None ->
  stock_of (loan_book_id rec) (db w) = [s] ->
  return_book (record_id rec) w =
    (Val (Ok tt),
     mkWorld (after_return rec s w) (clock w) (tl (tl (tl (tl (faults w)))))).
Proof.
  intros H Hrec Hopen Hs.
  unfold return_book, select_stock, write_stock, try_except, utcnow, bind.
  trip H. fold (lookup_record (record_id rec) (db w)). rewrite Hrec.
  cbn [single]. rewrite Hopen. cbn [is_none negb].
  trip H0. trip H. unfold with_borrow_records at 1. cbn [books].
  fold (stock_of (loan_book_id rec) (db w)). rewrite Hs.
  cbn [single get_stock fst snd]. trip H0. reflexivity.
Qed.

Lemma return_book_closed rec t w :
  answers 1 w ->
  lookup_record (record_id rec) (db w) = [rec] -> return_date rec = Some t ->
  return_book (record_id rec) w =
    (Val (Error BookAlreadyReturned),
     mkWorld (db w) (clock w) (tl (faults w))).
Proof.
  intros H Hrec Hclosed. unfold return_book, bind.
  trip H. fold (lookup_record (record_id rec) (db w)). rewrite Hrec.
  cbn [single]. rewrite Hclosed. reflexivity.
Qed.

Lemma lookup_borrowed_row mid bid s w :
  lookup_record (record_id (borrowed_row mid bid w)) (after_borrow mid bid s w)
  = [borrowed_row mid bid w].
Proof.
  unfold lookup_record, after_borrow. cbn [borrow_records with_borrow_records].
  rewrite eq_app.
  fold (lookup_record (record_id (borrowed_row mid bid w)) (db w)).
  rewrite borrowed_row_new. cbn [app eq_ filter].
  rewrite Z.eqb_refl. reflexivity.
Qed.

Lemma stock_of_after_return rec s s0 w :
  stock_of (loan_book_id rec) (db w) = [s0] ->
  stock_of (loan_book_id rec) (after_return rec s w) = [s + 1].
Proof.
  intros Hs. unfold after_return.
  apply (stock_of_written (loan_book_id rec) (s + 1) s0
           (with_borrow_records _ (db w))).
  exact Hs.
Qed.

(** What a successful reply tells, whatever the fault plan was. *)
Lemma borrow_book_ok_inv mid bid w recs w1 :
  borrow_book mid bid w = (Val (Ok recs), w1) ->
  exists s, stock_of bid (db w) = [s] /\ 0 < s /\
            recs = [borrowed_row mid bid w] /\
            db w1 = after_borrow mid bid s w /\ clock w1 = clock w.
Proof.
  unfold borrow_book, select_stock, write_stock, insert_borrow_record,
    try_except, bind.
  rewrite execute_eq. destruct (hd false (faults w)); [discriminate|].
  cbn [fst snd]. fold (stock_of bid (db w)).
  destruct (stock_of bid (db w)) as [|s [|s' l]];
    cbn [single is_none get_stock orb]; try discriminate.
  destruct (s <=? 0) eqn:E; [discriminate|]. apply Z.leb_gt in E.
  rewrite execute_eq. cbn [faults clock db fst snd].
  destruct (hd false (tl (faults w))); [discriminate|].
  rewrite execute_eq. cbn [faults clock db fst snd].
  destruct (hd false (tl (tl (faults w)))); [discriminate|].
  intros Heq. inversion Heq; subst. exists s. repeat split. exact E.
Qed.

Lemma return_book_ok_inv rid w w2 :
  return_book rid w = (Val (Ok tt), w2) ->
  exists rec, lookup_record rid (db w) = [rec] /\ return_date rec = None /\
    (stock_of (loan_book_id rec) (db w) = [] /\ db w2 = after_return rec 0 w
     \/ exists s, stock_of (loan_book_id rec) (db w) = [s] /\
                  db w2 = after_return rec s w).
Proof.
  unfold return_book, select_stock, write_stock, try_except, utcnow, bind.
  rewrite execute_eq. destruct (hd false (faults w)); [discriminate|].
  cbn [fst snd]. fold (lookup_record rid (db w)).
  destruct (lookup_record rid (db w)) as [|rec [|rec' l]] eqn:Hrec;
    cbn [single]; try discriminate.
  destruct (return_date rec) eqn:Hopen; cbn [is_none negb]; [discriminate|].
  assert (record_id rec = rid) as Hid.
  { assert (In rec (lookup_record rid (db w))) as Hin
        by (rewrite Hrec; left; reflexivity).
    unfold lookup_record, eq_ in Hin. apply filter_In in Hin.
    apply Z.eqb_eq. tauto. }
  rewrite execute_eq. cbn [faults clock db fst snd].
  destruct (hd false (tl (faults w))); [discriminate|].
  rewrite execute_eq. cbn [faults clock db fst snd].
  destruct (hd false (tl (tl (faults w)))); [discriminate|].
  unfold with_borrow_records at 1. cbn [books].
  fold (stock_of (loan_book_id rec) (db w)).
  destruct (stock_of (loan_book_id rec) (db w)) as [|s [|s' l]] eqn:Hst;
    cbn [single get_stock fst snd]; try discriminate.
  - rewrite execute_eq. cbn [faults clock db fst snd].
    destruct (hd false (tl (tl (tl (faults w))))); [discriminate|].
    intros Heq. inversion Heq; subst. exists rec.
    split; [reflexivity|]. split; [exact Hopen|]. left. split; [exact Hst | reflexivity].
  - rewrite execute_eq. cbn [faults clock db fst snd].
    destruct (hd false (tl (tl (tl (faults w))))); [discriminate|].
    intros Heq. inversion Heq; subst. exists rec.
    split; [reflexivity|]. split; [exact Hopen|]. right. exists s.
    split; [exact Hst | reflexivity].
Qed.

(** C6: borrowing a book whose stock is [s] and at once returning the
    record the borrow created puts the stock back to [s]: whenever both
    calls report success, and they do report success for stock > 0 when
    the store answers. *)
Theorem borrow_then_return_restores_stock mid bid s w :
  stock_of bid (db w) = [s] ->
  (forall rec w1 w2,
      borrow_book mid bid w = (Val (Ok [rec]), w1) ->
      return_book (record_id rec) w1 = (Val (Ok tt), w2) ->
      stock_of bid (db w1) = [s - 1] /\ stock_of bid (db w2) = [s]) /\
  (0 < s -> answers 7 w ->
   exists rec w1 w2,
      borrow_book mid bid w = (Val (Ok [rec]), w1) /\
      return_book (record_id rec) w1 = (Val (Ok tt), w2) /\
      stock_of bid (db w2) = [s]).
Proof.
  intros Hs. split.
  - intros rec w1 w2 Hb Hr.
    apply borrow_book_ok_inv in Hb.
    destruct Hb as [s' [Hs' [Hpos [Hrec [Hdb1 Hclk]]]]].
    rewrite Hs in Hs'. inversion Hs'; subst s'. inversion Hrec; subst rec.
    assert (stock_of bid (db w1) = [s - 1]) as Hs1
        by (rewrite Hdb1; apply stock_of_after_borrow; exact Hs).
    split; [exact Hs1|].
    apply return_book_ok_inv in Hr.
    destruct Hr as [rec [Hlook [Hopen Hcase]]].
    rewrite Hdb1, lookup_borrowed_row in Hlook. inversion Hlook; subst rec.
    cbn [borrowed_row loan_book_id] in Hcase.
    destruct Hcase as [[Hnone _] | [s1 [Hs1' Hdb2]]].
    + rewrite Hs1 in Hnone. discriminate.
    + rewrite Hs1 in Hs1'. inversion Hs1'; subst s1. rewrite Hdb2.
      replace [s] with [s - 1 + 1] by (f_equal; lia).
      apply (stock_of_after_return (borrowed_row mid bid w) (s - 1) (s - 1)).
      exact Hs1.
  - intros Hpos H.
    assert (answers 3 w) as H3 by (apply (answers_le 3 7); [lia | exact H]).
    pose proof (borrow_book_success mid bid s w H3 Hs Hpos) as Hb.
    set (w1 := mkWorld (after_borrow mid bid s w) (clock w)
                 (tl (tl (tl (faults w))))) in *.
    assert (answers 4 w1) as H4.
    { unfold answers in *. cbn [w1 faults].
      destruct (faults w) as [|b1 [|b2 [|b3 fs]]]; try reflexivity.
      cbn [firstn forallb tl] in *.
      repeat rewrite andb_true_iff in H. 
      destruct H as [_ [_ [_ H]]].
      destruct fs as [|b4 [|b5 [|b6 [|b7 fs]]]]; cbn [firstn forallb] in *;
        repeat rewrite andb_true_iff in *; tauto. }
    assert (stock_of bid (db w1) = [s - 1]) as Hs1
        by (apply stock_of_after_borrow; exact Hs).
    pose proof (return_book_success (borrowed_row mid bid w) (s - 1) w1 H4
                  (lookup_borrowed_row mid bid s w) eq_refl Hs1) as Hr.
    exists (borrowed_row mid bid w), w1.
    eexists. split; [exact Hb|]. split; [exact Hr|].
    cbn [db]. replace [s] with [s - 1 + 1] by (f_equal; lia).
    apply (stock_of_after_return (borrowed_row mid bid w) (s - 1) (s - 1)).
    exact Hs1.
Qed.

Lemma borrow_then_return_restores_stock_witness :
  stock_of 1 (db shelf) = [1] /\
  exists rec w1 w2,
    borrow_book 7 1 shelf = (Val (Ok [rec]), w1) /\
    return_book (record_id rec) w1 = (Val (Ok tt), w2) /\
    stock_of 1 (db w2) = [1].
Proof.
  split; [reflexivity|].
  destruct (borrow_then_return_restores_stock 7 1 1 shelf eq_refl)
    as [_ H].
  apply H; [lia | reflexivity].
Defined.

(** * Properties of the tables kept by every operation *)

Lemma triple_ret {A} (P : Database -> Prop) (a : A) Q :
  (forall d, P d -> Q (Val a) d) -> triple P (ret a) Q.
Proof. intros H w Hw. apply H. exact Hw. Qed.

Lemma triple_bind {A B} P (R : A -> Database -> Prop) (m : M A)
    (k : A -> M B) Q :
  triple P m (fun r d => match r with
                         | Val a => R a d
                         | Exc e => Q (Exc e) d
                         end) ->
  (forall a, triple (R a) (k a) Q) ->
  triple P (bind m k) Q.
Proof.
  intros Hm Hk w Hw. specialize (Hm w Hw). unfold bind.
  destruct (m w) as [[a|e] w']; cbn [fst snd] in *.
  - apply Hk. exact Hm.
  - exact Hm.
Qed.

Lemma triple_try {A} P (R : Exn -> Database -> Prop) (body : M A)
    (handler : Exn -> M A) Q :
  triple P body (fun r d => match r with
                            | Val a => Q (Val a) d
                            | Exc e => R e d
                            end) ->
  (forall e, triple (R e) (handler e) Q) ->
  triple P (try_except body handler) Q.
Proof.
  intros Hb Hh w Hw. specialize (Hb w Hw). unfold try_except.
  destruct (body w) as [[a|e] w']; cbn [fst snd] in *.
  - exact Hb.
  - apply Hh. exact Hb.
Qed.

Lemma triple_execute {A} P (q : Z -> Database -> Res A * Database) Q :
  (forall now d, P d ->
     Q (Exc StoreUnavailable) d /\ Q (fst (q now d)) (snd (q now d))) ->
  triple P (execute q) Q.
Proof.
  intros H w Hw. rewrite execute_eq.
  destruct (H (clock w) (db w) Hw) as [He Hv].
  destruct (hd false (faults w)); cbn [fst snd db set_faults]; assumption.
Qed.

Lemma triple_utcnow P Q :
  (forall t d, P d -> Q (Val t) d) -> triple P utcnow Q.
Proof. intros H w Hw. apply H. exact Hw. Qed.

(** A round trip that leaves [I] alone. *)
Lemma keeps_execute {A} I (q : Z -> Database -> Res A * Database) :
  (forall now d, I d -> I (snd (q now d))) -> keeps I (execute q).
Proof.
  intros H. apply triple_execute. intros now d Hd.
  split; [exact Hd | apply H; exact Hd].
Qed.

Lemma keeps_bind {A B} I (m : M A) (k : A -> M B) :
  keeps I m -> (forall a, keeps I (k a)) -> keeps I (bind m k).
Proof.
  intros Hm Hk. apply (triple_bind I (fun _ d => I d)).
  - intros w Hw. specialize (Hm w Hw). destruct (fst (m w)); exact Hm.
  - exact Hk.
Qed.

Lemma keeps_try {A} I (body : M A) (handler : Exn -> M A) :
  keeps I body -> (forall e, keeps I (handler e)) ->
  keeps I (try_except body handler).
Proof.
  intros Hb Hh. apply (triple_try I (fun _ d => I d)).
  - intros w Hw. specialize (Hb w Hw). destruct (fst (body w)); exact Hb.
  - exact Hh.
Qed.

Lemma keeps_ret {A} I (a : A) : keeps I (ret a).
Proof. apply triple_ret. auto. Qed.

Lemma keeps_scan_fields `{Backend} I fields keyword st :
  keeps I (scan_fields fields keyword st).
Proof.
  revert st. induction fields as [|f fields IH]; intros st; cbn [scan_fields].
  - apply keeps_ret.
  - apply keeps_bind; [|intros rows; apply IH].
    apply keeps_execute. auto.
Qed.

Lemma keeps_search_books `{Backend} I keyword : keeps I (search_books keyword).
Proof.
  unfold search_books. destruct (is_empty (strip keyword)).
  - apply keeps_ret.
  - apply keeps_bind; [apply keeps_scan_fields | intros; apply keeps_ret].
Qed.

Lemma keeps_report_overdue I : keeps I report_overdue.
Proof.
  unfold report_overdue. apply keeps_bind.
  - apply triple_utcnow. auto.
  - intros now. apply keeps_execute. auto.
Qed.

Lemma keeps_report_top_books `{Backend} I : keeps I report_top_books.
Proof.
  unfold report_top_books. apply keeps_try.
  - apply keeps_execute. auto.
  - intros e. apply keeps_ret.
Qed.

Lemma keeps_report_member_borrows `{Backend} I :
  keeps I report_member_borrows.
Proof.
  unfold report_member_borrows. apply keeps_try.
  - apply keeps_execute. auto.
  - intros e. apply keeps_ret.
Qed.

Section TableLocal.
Variable I : Database -> Prop.

(** [I] does not read the members table. *)
Hypothesis I_members : forall ms d, I d -> I (with_members ms d).

Lemma keeps_add_member n e : keeps I (add_member n e).
Proof. apply keeps_execute. intros now d Hd. apply I_members, Hd. Qed.

Lemma keeps_list_members : keeps I list_members.
Proof. apply keeps_execute. auto. Qed.

Lemma keeps_update_member mid e : keeps I (update_member mid e).
Proof. apply keeps_execute. intros now d Hd. apply I_members, Hd. Qed.

Lemma keeps_delete_member mid : keeps I (delete_member mid).
Proof.
  unfold delete_member. apply keeps_bind.
  - apply keeps_execute. auto.
  - intros [|r l]; [|apply keeps_ret].
    apply keeps_bind; [|intros; apply keeps_ret].
    apply keeps_execute. intros now d Hd. apply I_members, Hd.
Qed.

Lemma keeps_list_books : keeps I list_books.
Proof. apply keeps_execute. auto. Qed.

Lemma keeps_select_stock bid : keeps I (select_stock bid).
Proof. apply keeps_execute. auto. Qed.

(** [I] does not read the books table either. *)
Hypothesis I_books : forall bs d, I d -> I (with_books bs d).

Lemma keeps_add_book t a c s : keeps I (add_book t a c s).
Proof. apply keeps_execute. intros now d Hd. apply I_books, Hd. Qed.

Lemma keeps_update_book_stock bid s : keeps I (update_book_stock bid s).
Proof. apply keeps_execute. intros now d Hd. apply I_books, Hd. Qed.

Lemma keeps_write_stock bid s : keeps I (write_stock bid s).
Proof. apply keeps_execute. intros now d Hd. apply I_books, Hd. Qed.

Lemma keeps_delete_book bid : keeps I (delete_book bid).
Proof.
  unfold delete_book. apply keeps_bind.
  - apply keeps_execute. auto.
  - intros [|r l]; [|apply keeps_ret].
    apply keeps_bind; [|intros; apply keeps_ret].
    apply keeps_execute. intros now d Hd. apply I_books, Hd.
Qed.
End TableLocal.

(** ** A closed loan record stays as it is *)

Section ClosedRecord.
Variable rec : BorrowRecord.
Variable t : Z.
Hypothesis rec_closed : return_date rec = Some t.

Lemma stored_in d :
  stored rec d -> In (record_id rec) (map record_id (borrow_records d)).
Proof.
  unfold stored, lookup_record, eq_. intros Hd. apply in_map.
  assert (In rec [rec]) as Hin by (left; reflexivity).
  rewrite <- Hd in Hin. apply filter_In in Hin. tauto.
Qed.

Lemma stored_insert mid bid now d :
  stored rec d ->
  stored rec (with_borrow_records
            (borrow_records d ++
             [mkBorrowRecord (fresh_id (map record_id (borrow_records d)))
                mid bid now None]) d).
Proof.
  intros Hd. pose proof (stored_in d Hd) as Hin.
  apply fresh_id_above in Hin.
  unfold stored, lookup_record in *. cbn [borrow_records with_borrow_records].
  rewrite eq_app, Hd. cbn [eq_ filter record_id].
  assert ((fresh_id (map record_id (borrow_records d)) =? record_id rec)
          = false) as -> by (apply Z.eqb_neq; lia).
  reflexivity.
Qed.

Lemma stored_close rid now r0 d :
  stored rec d -> eq_ record_id rid (borrow_records d) = [r0] ->
  return_date r0 = None ->
  stored rec (with_borrow_records
            (update_eq (set_return_date now) record_id rid (borrow_records d))
            d).
Proof.
  intros Hd Hr0 Hopen. unfold stored, lookup_record in *.
  cbn [borrow_records with_borrow_records].
  destruct (Z.eq_dec (record_id rec) rid) as [Heq | Hne].
  - rewrite Heq in Hd. rewrite Hd in Hr0. inversion Hr0; subst r0.
    congruence.
  - rewrite eq_update_other by (auto). exact Hd.
Qed.

Lemma keeps_stored_borrow_book mid bid : keeps (stored rec) (borrow_book mid bid).
Proof.
  unfold borrow_book. apply keeps_bind.
  - apply keeps_select_stock.
  - intros book. destruct (is_none book || (get_stock book <=? 0)).
    + apply keeps_ret.
    + apply keeps_try; [|intros; apply keeps_ret].
      apply keeps_bind; [apply keeps_write_stock; auto|]. intros _.
      apply keeps_bind; [|intros; apply keeps_ret].
      apply keeps_execute. intros now d Hd. apply stored_insert, Hd.
Qed.

Lemma keeps_stored_return_book rid : keeps (stored rec) (return_book rid).
Proof.
  unfold return_book.
  apply (triple_bind (stored rec)
           (fun record d =>
              stored rec d /\
              forall r0, record = Some r0 ->
                         eq_ record_id rid (borrow_records d) = [r0])).
  - apply triple_execute. intros now d Hd. cbn [fst snd].
    split; [exact Hd|].
    destruct (eq_ record_id rid (borrow_records d)) as [|r0 [|r1 l]];
      cbn [single]; try exact Hd; (split; [exact Hd|]).
    + discriminate.
    + intros r Hr. inversion Hr. reflexivity.
  - intros [r0|].
    2:{ apply triple_ret. tauto. }
    destruct (return_date r0) eqn:Hopen; cbn [is_none negb].
    { apply triple_ret. tauto. }
    apply (triple_try _ (fun _ d => stored rec d)); [|intros; apply keeps_ret].
    apply (triple_bind _
             (fun _ d => stored rec d /\
                         eq_ record_id rid (borrow_records d) = [r0])).
    { apply triple_utcnow. intros now d [Hd Hr]. split; [exact Hd|].
      apply Hr. reflexivity. }
    intros now.
    apply (triple_bind _ (fun _ d => stored rec d)).
    { apply triple_execute. intros t0 d [Hd Hr]. cbn [fst snd].
      split; [exact Hd|]. apply (stored_close rid now r0); assumption. }
    intros _.
    apply (triple_bind _ (fun _ d => stored rec d)).
    { pose proof (keeps_select_stock (stored rec) (loan_book_id r0)) as Hk.
      intros w Hw. specialize (Hk w Hw).
      destruct (fst (select_stock (loan_book_id r0) w)); exact Hk. }
    intros book.
    apply (triple_bind _ (fun _ d => stored rec d)).
    { pose proof (keeps_write_stock (stored rec) (fun _ _ H => H)
                    (loan_book_id r0) (get_stock book + 1)) as Hk.
      intros w Hw. specialize (Hk w Hw).
      destruct (fst (write_stock _ _ w)); exact Hk. }
    intros _. apply triple_ret. auto.
Qed.

Lemma keeps_stored_run_op `{Backend} op w :
  stored rec (db w) -> stored rec (db (run_op op w)).
Proof.
  intros Hw.
  destruct op; cbn [run_op].
  - apply (keeps_add_member (stored rec) (fun _ _ H => H)), Hw.
  - apply (keeps_list_members (stored rec)), Hw.
  - apply (keeps_update_member (stored rec) (fun _ _ H => H)), Hw.
  - apply (keeps_delete_member (stored rec) (fun _ _ H => H)), Hw.
  - apply (keeps_add_book (stored rec) (fun _ _ H => H)), Hw.
  - apply (keeps_list_books (stored rec)), Hw.
  - apply (keeps_update_book_stock (stored rec) (fun _ _ H => H)), Hw.
  - apply (keeps_delete_book (stored rec) (fun _ _ H => H)), Hw.
  - apply (keeps_search_books (stored rec)), Hw.
  - apply keeps_stored_borrow_book, Hw.
  - apply keeps_stored_return_book, Hw.
  - apply (keeps_report_top_books (stored rec)), Hw.
  - apply (keeps_report_overdue (stored rec)), Hw.
  - apply (keeps_report_member_borrows (stored rec)), Hw.
Qed.

Lemma keeps_stored_run_history `{Backend} h w :
  stored rec (db w) -> stored rec (db (run_history h w)).
Proof.
  unfold run_history. revert w.
  induction h as [|[[t0 fs] op] h IH]; intros w Hw; cbn [fold_left].
  - exact Hw.
  - apply IH. cbn [run_call]. apply keeps_stored_run_op. exact Hw.
Qed.
End ClosedRecord.

(** C3: for a closed loan record (the one row under its identifier, with
    a return timestamp), [return_book] answers "Book already returned!"
    when the store answers, and under every fault plan leaves all tables,
    the book's stock and the record included, as they were; after any
    history of operations the row under that identifier is still the same
    closed record, so it is never seen open again. *)
Theorem closed_record_stays_closed `{Backend} rec t w :
  stored rec (db w) -> return_date rec = Some t ->
  (answers 1 w ->
   fst (return_book (record_id rec) w) = Val (Error BookAlreadyReturned)) /\
  db (snd (return_book (record_id rec) w)) = db w /\
  (forall h, stored rec (db (run_history h w))) /\
  (forall h r, In r (borrow_records (db (run_history h w))) ->
               record_id r = record_id rec -> is_open r = false).
Proof.
  intros Hst Hclosed. split; [|split; [|split]].
  - intros H1. rewrite (return_book_closed rec t w H1 Hst Hclosed).
    reflexivity.
  - unfold return_book, bind. rewrite execute_eq.
    destruct (hd false (faults w)); [reflexivity|]. cbn [fst snd].
    fold (lookup_record (record_id rec) (db w)). rewrite Hst.
    cbn [single]. rewrite Hclosed. reflexivity.
  - intros h. apply (keeps_stored_run_history rec t Hclosed). exact Hst.
  - intros h r Hin Hid.
    pose proof (keeps_stored_run_history rec t Hclosed h w Hst) as Hh.
    assert (In r (lookup_record (record_id rec) (db (run_history h w)))) as Hr.
    { unfold lookup_record, eq_. apply filter_In. split; [exact Hin|].
      apply Z.eqb_eq. exact Hid. }
    rewrite Hh in Hr. destruct Hr as [<- | []].
    unfold is_open. rewrite Hclosed. reflexivity.
Qed.

Lemma closed_record_stays_closed_witness :
  let rec := mkBorrowRecord 1 1 1 400 (Some 900) in
  let w := mkWorld (mkDatabase [] [go_book] [rec]) 1000 [] in
  fst (return_book 1 w) = Val (Error BookAlreadyReturned) /\
  stored rec
    (db (@run_history local_store
           [(1100, [], ReturnBook 1); (1200, [false; true], BorrowBook 1 1)] w)).
Proof.
  intros rec w.
  destruct (@closed_record_stays_closed local_store rec 900 w)
    as [H1 [_ [H3 _]]]; [reflexivity | reflexivity |].
  split; [apply H1; reflexivity | apply H3].
Defined.

(** ** Stock never drops below zero through a borrow or a return *)

Lemma Forall_update_eq {R} (P : R -> Prop) (patch : R -> R) (col : R -> Z) v
    (rows : list R) :
  Forall P rows -> (forall r, P r -> P (patch r)) ->
  Forall P (update_eq patch col v rows).
Proof.
  intros Hrows Hpatch. unfold update_eq.
  induction Hrows as [|r rows Hr Hrows IH]; cbn [map]; constructor.
  - destruct (col r =? v); auto.
  - exact IH.
Qed.

Lemma Forall_delete_eq {R} (P : R -> Prop) (col : R -> Z) v (rows : list R) :
  Forall P rows -> Forall P (delete_eq col v rows).
Proof.
  rewrite !Forall_forall. intros H r Hin. apply delete_eq_in in Hin.
  apply H. tauto.
Qed.

Lemma stocks_nonneg_write bid s d :
  stocks_nonneg d -> 0 <= s ->
  stocks_nonneg (with_books (update_eq (set_stock s) book_id bid (books d)) d).
Proof.
  intros Hd Hs. unfold stocks_nonneg. cbn [books with_books].
  apply Forall_update_eq; [exact Hd|]. intros r _. exact Hs.
Qed.

Lemma stocks_nonneg_read bid s d :
  stocks_nonneg d -> single (stock_of bid d) = Val (Some s) -> 0 <= s.
Proof.
  unfold stocks_nonneg, stock_of, eq_. intros Hd Hs.
  destruct (filter _ (books d)) as [|b [|b' l]] eqn:E; cbn in Hs;
    try discriminate.
  inversion Hs; subst s.
  assert (In b (filter (fun r => book_id r =? bid) (books d))) as Hin
      by (rewrite E; left; reflexivity).
  apply filter_In in Hin. rewrite Forall_forall in Hd. apply Hd. tauto.
Qed.

Lemma keeps_nonneg_add_book t a c s :
  0 <= s -> keeps stocks_nonneg (add_book t a c s).
Proof.
  intros Hs. apply keeps_execute. intros now d Hd.
  unfold stocks_nonneg in *. cbn [snd books with_books].
  apply Forall_app. split; [exact Hd|]. constructor; [exact Hs | constructor].
Qed.

Lemma keeps_nonneg_update_book_stock bid s :
  0 <= s -> keeps stocks_nonneg (update_book_stock bid s).
Proof.
  intros Hs. apply keeps_execute. intros now d Hd.
  apply stocks_nonneg_write; assumption.
Qed.

Lemma keeps_nonneg_write_stock bid s :
  0 <= s -> keeps stocks_nonneg (write_stock bid s).
Proof.
  intros Hs. apply keeps_execute. intros now d Hd.
  apply stocks_nonneg_write; assumption.
Qed.

Lemma keeps_nonneg_delete_book bid : keeps stocks_nonneg (delete_book bid).
Proof.
  unfold delete_book. apply keeps_bind.
  - apply keeps_execute. auto.
  - intros [|r l]; [|apply keeps_ret].
    apply keeps_bind; [|intros; apply keeps_ret].
    apply keeps_execute. intros now d Hd.
    unfold stocks_nonneg in *. cbn [snd books with_books].
    apply Forall_delete_eq. exact Hd.
Qed.

Lemma keeps_nonneg_borrow_book mid bid :
  keeps stocks_nonneg (borrow_book mid bid).
Proof.
  unfold borrow_book. apply keeps_bind.
  - apply keeps_select_stock.
  - intros book.
    destruct (is_none book || (get_stock book <=? 0)) eqn:E.
    + apply keeps_ret.
    + apply orb_false_iff in E. destruct E as [_ E]. apply Z.leb_gt in E.
      apply keeps_try; [|intros; apply keeps_ret].
      apply keeps_bind; [apply keeps_nonneg_write_stock; lia|]. intros _.
      apply keeps_bind; [|intros; apply keeps_ret].
      apply keeps_execute. intros now d Hd. exact Hd.
Qed.

Lemma keeps_nonneg_return_book rid : keeps stocks_nonneg (return_book rid).
Proof.
  unfold return_book. apply keeps_bind.
  - apply keeps_execute. auto.
  - intros [r0|]; [|apply keeps_ret].
    destruct (negb (is_none (return_date r0))); [apply keeps_ret|].
    apply keeps_try; [|intros; apply keeps_ret].
    apply keeps_bind; [apply triple_utcnow; auto|]. intros now.
    apply keeps_bind; [apply keeps_execute; intros t0 d Hd; exact Hd|].
    intros _.
    apply (triple_bind _ (fun book d => stocks_nonneg d /\ 0 <= get_stock book)).
    + apply triple_execute. intros t0 d Hd. cbn [fst snd].
      split; [exact Hd|].
      fold (stock_of (loan_book_id r0) d).
      destruct (single (stock_of (loan_book_id r0) d)) as [[s|]|e] eqn:Es.
      * split; [exact Hd|]. cbn [get_stock].
        apply (stocks_nonneg_read (loan_book_id r0) s d Hd Es).
      * split; [exact Hd|]. cbn [get_stock]. lia.
      * exact Hd.
    + intros book.
      apply (triple_bind _ (fun _ d => stocks_nonneg d)).
      * intros w [Hw Hs].
        pose proof (keeps_nonneg_write_stock (loan_book_id r0)
                      (get_stock book + 1) ltac:(lia) w Hw) as Hk.
        destruct (fst (write_stock _ _ w)); exact Hk.
      * intros _. apply keeps_ret.
Qed.

Lemma stocks_nonneg_run_op `{Backend} op w :
  stocks_nonneg (db w) -> supplied_stock_nonneg op ->
  stocks_nonneg (db (run_op op w)).
Proof.
  intros Hw Hop.
  destruct op; cbn [run_op supplied_stock_nonneg] in *.
  - apply (keeps_add_member stocks_nonneg (fun _ _ H => H)), Hw.
  - apply (keeps_list_members stocks_nonneg), Hw.
  - apply (keeps_update_member stocks_nonneg (fun _ _ H => H)), Hw.
  - apply (keeps_delete_member stocks_nonneg (fun _ _ H => H)), Hw.
  - apply keeps_nonneg_add_book; assumption.
  - apply (keeps_list_books stocks_nonneg), Hw.
  - apply keeps_nonneg_update_book_stock; assumption.
  - apply keeps_nonneg_delete_book, Hw.
  - apply (keeps_search_books stocks_nonneg), Hw.
  - apply keeps_nonneg_borrow_book, Hw.
  - apply keeps_nonneg_return_book, Hw.
  - apply (keeps_report_top_books stocks_nonneg), Hw.
  - apply (keeps_report_overdue stocks_nonneg), Hw.
  - apply (keeps_report_member_borrows stocks_nonneg), Hw.
Qed.

(** C2, against the claim: [update_book_stock] and [add_book] take a
    negative stock without any error and store it. *)
Lemma negative_stock_is_stored :
  stocks_nonneg (db shelf) /\
  fst (update_book_stock 1 (-3) shelf) = Val [set_stock (-3) go_book] /\
  stock_of 1 (db (snd (update_book_stock 1 (-3) shelf))) = [-3] /\
  ~ stocks_nonneg (db (snd (update_book_stock 1 (-3) shelf))) /\
  fst (add_book "Dune" "Frank Herbert" "Fiction" (-1) shelf)
    = Val [mkBook 2 "Dune" "Frank Herbert" "Fiction" (-1)] /\
  ~ stocks_nonneg (db (snd (add_book "Dune" "Frank Herbert" "Fiction" (-1) shelf))).
Proof.
  split; [|split; [|split; [|split; [|split]]]]; try reflexivity.
  - constructor; [cbn; lia | constructor].
  - intros Hn. inversion Hn as [|b l Hb Hl]; subst. apply Hb. reflexivity.
  - intros Hn. inversion Hn as [|b l Hb Hl]; subst.
    inversion Hl as [|b' l' Hb' Hl']; subst. apply Hb'. reflexivity.
Qed.

(** C2, amended: no operation validates a stock it is handed;
    [add_book] and [update_book_stock] store the integer as given.  As
    long as the stocks handed to those two are not negative, every book's
    stock is still >= 0 after any history of operations, under every fault
    plan: [borrow_book] and [return_book] never take a stock below zero. *)
Theorem stock_stays_nonneg `{Backend} (h : list Call) (w : World) :
  stocks_nonneg (db w) ->
  Forall (fun c => supplied_stock_nonneg (snd c)) h ->
  stocks_nonneg (db (run_history h w)).
Proof.
  unfold run_history. revert w.
  induction h as [|[[t0 fs] op] h IH]; intros w Hw Hh; cbn [fold_left].
  - exact Hw.
  - inversion Hh as [|c l Hc Hl]; subst. apply IH; [|exact Hl].
    cbn [run_call]. apply stocks_nonneg_run_op; [exact Hw | exact Hc].
Qed.

Lemma stock_stays_nonneg_witness :
  stocks_nonneg
    (db (@run_history local_store
           [(1000, [], BorrowBook 7 1); (1001, [], BorrowBook 8 1);
            (1002, [false; false; false; true], ReturnBook 1);
            (1003, [], UpdateBookStock 1 5)] shelf)).
Proof.
  apply (@stock_stays_nonneg local_store).
  - constructor; [cbn; lia | constructor].
  - repeat (constructor; [cbn; try lia; exact Logic.I |]). constructor.
Defined.

(** * Search *)















(** * Returning: what the error paths leave behind *)

Lemma lookup_closed rec now d :
  stored rec d ->
  lookup_record (record_id rec)
    (with_borrow_records
       (update_eq (set_return_date now) record_id (record_id rec)
          (borrow_records d)) d)
  = [set_return_date now rec].
Proof.
  unfold stored, lookup_record. intros Hd.
  cbn [borrow_records with_borrow_records].
  rewrite eq_update_same by reflexivity. rewrite Hd. reflexivity.
Qed.

(** X1: when [return_book] has written the return date and then answers
    "Transaction failed" (the stock read or the stock write went wrong),
    the record stays closed and no stock has changed; returning the same
    record again is refused as already returned, so the copy is never
    added back. *)
Theorem return_book_failure_keeps_record_closed rec w :
  stored rec (db w) -> return_date rec = None -> answers 2 w ->
  transaction_failed (fst (return_book (record_id rec) w)) ->
  lookup_record (record_id rec) (db (snd (return_book (record_id rec) w)))
    = [set_return_date (clock w) rec] /\
  books (db (snd (return_book (record_id rec) w))) = books (db w) /\
  forall w', db w' = db (snd (return_book (record_id rec) w)) ->
             answers 1 w' ->
             fst (return_book (record_id rec) w')
             = Val (Error BookAlreadyReturned).
Proof.
  intros Hst Hopen H2 [e He].
  assert (db (snd (return_book (record_id rec) w)) =
          with_borrow_records
            (update_eq (set_return_date (clock w)) record_id (record_id rec)
               (borrow_records (db w))) (db w)) as Hdb.
  { revert He.
    unfold return_book, select_stock, write_stock, try_except, utcnow, bind.
    trip H2. fold (lookup_record (record_id rec) (db w)). rewrite Hst.
    cbn [single]. rewrite Hopen. cbn [is_none negb]. trip H.
    rewrite execute_eq. cbn [faults clock db fst snd].
    destruct (hd false (tl (tl (faults w)))); [reflexivity|].
    cbn [books with_borrow_records].
    destruct (single (map stock (eq_ book_id (loan_book_id rec)
                                   (books (db w))))) as [book | e'];
      cbn [fst snd]; [|reflexivity].
    rewrite execute_eq. cbn [faults clock db fst snd].
    destruct (hd false (tl (tl (tl (faults w))))); [reflexivity|].
    cbn [fst snd ret]. discriminate. }
  rewrite Hdb. split; [apply lookup_closed; exact Hst|].
  split; [reflexivity|].
  intros w' Hw' H1.
  assert (stored (set_return_date (clock w) rec) (db w')) as Hst'
      by (unfold stored; rewrite Hw'; apply (lookup_closed rec); exact Hst).
  pose proof (return_book_closed (set_return_date (clock w) rec) (clock w) w'
                H1 Hst' eq_refl) as Hr.
  cbn [set_return_date record_id] in Hr. rewrite Hr. reflexivity.
Qed.

Lemma return_book_failure_keeps_record_closed_witness :
  let w := lent_out [false; false; true] in
  fst (return_book 1 w) = Val (Error (TransactionFailed StoreUnavailable)) /\
  stock_of 1 (db (snd (return_book 1 w))) = [0] /\
  lookup_record 1 (db (snd (return_book 1 w)))
    = [mkBorrowRecord 1 7 1 400 (Some 1000)].
Proof.
  intros w.
  destruct (return_book_failure_keeps_record_closed
              (mkBorrowRecord 1 7 1 400 None) w) as [H1 [H2 _]];
    [reflexivity | reflexivity | reflexivity
     | exists StoreUnavailable; reflexivity |].
  split; [reflexivity|]. split; [reflexivity | exact H1].
Defined.



Lemma stock_of_write_other bid bid' s d :
  bid' <> bid ->
  stock_of bid' (with_books (update_eq (set_stock s) book_id bid (books d)) d)
  = stock_of bid' d.
Proof.
  intros Hne. unfold stock_of. cbn [books with_books].
  rewrite eq_update_other by (auto). reflexivity.
Qed.

(** X3: a successful [return_book] of an open record touches exactly one
    record and one book: the record gets the clock as its return date and
    keeps its other columns, the stock of its book goes up by one, every
    other record and every other book's stock is as before, and the
    members table is untouched. *)
Theorem return_book_effect rec s w :
  stored rec (db w) -> return_date rec = None ->
  stock_of (loan_book_id rec) (db w) = [s] -> answers 4 w ->
  fst (return_book (record_id rec) w) = Val (Ok tt) /\
  lookup_record (record_id rec) (db (snd (return_book (record_id rec) w)))
    = [set_return_date (clock w) rec] /\
  (forall rid, rid <> record_id rec ->
     lookup_record rid (db (snd (return_book (record_id rec) w)))
     = lookup_record rid (db w)) /\
  stock_of (loan_book_id rec) (db (snd (return_book (record_id rec) w)))
    = [s + 1] /\
  (forall bid, bid <> loan_book_id rec ->
     stock_of bid (db (snd (return_book (record_id rec) w)))
     = stock_of bid (db w)) /\
  members (db (snd (return_book (record_id rec) w))) = members (db w).
Proof.
  intros Hst Hopen Hs H4.
  rewrite (return_book_success rec s w H4 Hst Hopen Hs). cbn [fst snd db].
  split; [reflexivity|]. split; [|split; [|split; [|split]]].
  - unfold after_return, lookup_record. cbn [borrow_records with_books].
    apply (lookup_closed rec (clock w) (db w) Hst).
  - intros rid Hne. unfold after_return, lookup_record.
    cbn [borrow_records with_books with_borrow_records].
    apply eq_update_other; [reflexivity | exact Hne].
  - apply (stock_of_after_return rec s s w Hs).
  - intros bid Hne. unfold after_return.
    apply (stock_of_write_other (loan_book_id rec) bid (s + 1)
             (with_borrow_records _ (db w)) Hne).
  - reflexivity.
Qed.

Lemma return_book_effect_witness :
  fst (return_book 1 on_loan) = Val (Ok tt) /\
  stock_of 1 (db (snd (return_book 1 on_loan))) = [1] /\
  lookup_record 1 (db (snd (return_book 1 on_loan)))
    = [mkBorrowRecord 1 1 1 400 (Some 1000)].
Proof.
  destruct (return_book_effect (mkBorrowRecord 1 1 1 400 None) 0 on_loan)
    as [H1 [H2 [_ [H3 _]]]]; try reflexivity.
  split; [exact H1 | split; [exact H3 | exact H2]].
Defined.



(** * Borrowing: failures before the insert *)

(** X5: what [borrow_book] does when something goes wrong before the loan
    record is inserted.  A failed stock lookup is not caught: the
    exception leaves [borrow_book].  So does the one [.single()] raises
    when several book rows carry the identifier.  A failed stock write is
    caught and reported as "Transaction failed".  In all three cases no
    table has changed. *)
Theorem borrow_book_early_failures mid bid w :
  (hd false (faults w) = true ->
     fst (borrow_book mid bid w) = Exc StoreUnavailable /\
     db (snd (borrow_book mid bid w)) = db w) /\
  (forall s s' l, answers 1 w -> stock_of bid (db w) = s :: s' :: l ->
     fst (borrow_book mid bid w) = Exc MultipleRows /\
     db (snd (borrow_book mid bid w)) = db w) /\
  (forall s fs, faults w = false :: true :: fs ->
     stock_of bid (db w) = [s] -> 0 < s ->
     fst (borrow_book mid bid w)
       = Val (Error (TransactionFailed StoreUnavailable)) /\
     db (snd (borrow_book mid bid w)) = db w).
Proof.
  split; [|split].
  - intros Hf. unfold borrow_book, select_stock, bind.
    rewrite execute_eq, Hf. split; reflexivity.
  - intros s s' l H Hs. unfold borrow_book, select_stock, bind.
    trip H. fold (stock_of bid (db w)). rewrite Hs. split; reflexivity.
  - intros s fs Hf Hs Hpos.
    unfold borrow_book, select_stock, write_stock, try_except, bind.
    rewrite execute_eq, Hf. cbn [hd tl fst snd].
    fold (stock_of bid (db w)). rewrite Hs. cbn [single is_none get_stock orb].
    assert ((s <=? 0) = false) as -> by (apply Z.leb_gt; exact Hpos).
    rewrite execute_eq. cbn [hd tl fst snd faults clock db ret].
    split; [reflexivity|]. destruct (db w); reflexivity.
Qed.

Lemma borrow_book_early_failures_witness :
  fst (borrow_book 7 1 (set_faults [true] shelf)) = Exc StoreUnavailable /\
  fst (borrow_book 7 1 (set_faults [false; true] shelf))
    = Val (Error (TransactionFailed StoreUnavailable)) /\
  db (snd (borrow_book 7 1 (set_faults [false; true] shelf))) = db shelf.
Proof.
  destruct (borrow_book_early_failures 7 1 (set_faults [true] shelf))
    as [H1 _].
  destruct (borrow_book_early_failures 7 1 (set_faults [false; true] shelf))
    as [_ [_ H3]].
  destruct (H1 eq_refl) as [Ha _].
  destruct (H3 1 [] eq_refl eq_refl ltac:(lia)) as [Hb Hc].
  split; [exact Ha | split; [exact Hb | exact Hc]].
Defined.

(** * Which operation can change what *)

Lemma keeps_borrow_book_blind I mid bid :
  ignores_stock I -> ignores_new_loans I -> keeps I (borrow_book mid bid).
Proof.
  intros Hs Hn. unfold borrow_book. apply keeps_bind.
  - apply keeps_select_stock.
  - intros book. destruct (is_none book || (get_stock book <=? 0)).
    + apply keeps_ret.
    + apply keeps_try; [|intros; apply keeps_ret].
      apply keeps_bind.
      * apply keeps_execute. intros now d Hd. apply Hs, Hd.
      * intros _. apply keeps_bind; [|intros; apply keeps_ret].
        apply keeps_execute. intros now d Hd. apply Hn, Hd.
Qed.

Lemma keeps_return_book_blind I rid :
  ignores_stock I -> ignores_closing I -> keeps I (return_book rid).
Proof.
  intros Hs Hc. unfold return_book. apply keeps_bind.
  - apply keeps_execute. auto.
  - intros [r0|]; [|apply keeps_ret].
    destruct (negb (is_none (return_date r0))); [apply keeps_ret|].
    apply keeps_try; [|intros; apply keeps_ret].
    apply keeps_bind; [apply triple_utcnow; auto|]. intros now.
    apply keeps_bind.
    { apply keeps_execute. intros t0 d Hd. apply Hc, Hd. }
    intros _. apply keeps_bind; [apply keeps_select_stock|].
    intros book. apply keeps_bind; [|intros; apply keeps_ret].
    apply keeps_execute. intros t0 d Hd. apply Hs, Hd.
Qed.

Lemma keeps_update_book_stock_blind I bid s :
  ignores_stock I -> keeps I (update_book_stock bid s).
Proof.
  intros Hs. apply keeps_execute. intros now d Hd. apply Hs, Hd.
Qed.

(** An operation keeps every property blind to the writes it issues. *)
Lemma run_op_keeps `{Backend} (I : Database -> Prop) op w :
  (writes_members op = true -> ignores_members I) ->
  (reshapes_books op = true -> ignores_books I) ->
  ignores_stock I ->
  (writes_loans op = true -> ignores_new_loans I /\ ignores_closing I) ->
  I (db w) -> I (db (run_op op w)).
Proof.
  intros Hm Hb Hs Hl Hw.
  destruct op; cbn [run_op writes_members reshapes_books writes_loans] in *.
  - apply (keeps_add_member I (Hm eq_refl)), Hw.
  - apply (keeps_list_members I), Hw.
  - apply (keeps_update_member I (Hm eq_refl)), Hw.
  - apply (keeps_delete_member I (Hm eq_refl)), Hw.
  - apply (keeps_add_book I (Hb eq_refl)), Hw.
  - apply (keeps_list_books I), Hw.
  - apply keeps_update_book_stock_blind; assumption.
  - apply (keeps_delete_book I (Hb eq_refl)), Hw.
  - apply (keeps_search_books I), Hw.
  - apply keeps_borrow_book_blind; [exact Hs | apply Hl; reflexivity | exact Hw].
  - apply keeps_return_book_blind; [exact Hs | apply Hl; reflexivity | exact Hw].
  - apply (keeps_report_top_books I), Hw.
  - apply (keeps_report_overdue I), Hw.
  - apply (keeps_report_member_borrows I), Hw.
Qed.

Lemma run_history_keeps `{Backend} (I : Database -> Prop) (ok : Op -> Prop) :
  (forall op w, ok op -> I (db w) -> I (db (run_op op w))) ->
  forall h w, Forall (fun c => ok (call_op c)) h ->
              I (db w) -> I (db (run_history h w)).
Proof.
  intros Hop. unfold run_history.
  induction h as [|[[t0 fs] op] h IH]; intros w Hh Hw; cbn [fold_left].
  - exact Hw.
  - inversion Hh as [|c l Hc Hl]; subst. apply IH; [exact Hl|].
    cbn [run_call]. apply Hop; [exact Hc | exact Hw].
Qed.

Lemma map_card_write s bid bs :
  map book_card (update_eq (set_stock s) book_id bid bs) = map book_card bs.
Proof.
  unfold update_eq. rewrite map_map. apply map_ext. intros b.
  destruct (book_id b =? bid); reflexivity.
Qed.

Lemma map_core_close now rid rs :
  map loan_core (update_eq (set_return_date now) record_id rid rs)
  = map loan_core rs.
Proof.
  unfold update_eq. rewrite map_map. apply map_ext. intros r.
  destruct (record_id r =? rid); reflexivity.
Qed.

(** X6: loan records are never deleted and never re-pointed.  After any
    history of operations, under any fault plans, the records that were
    there are still there in the same order with the same identifier,
    member, book and borrow timestamp; new ones only come after them. *)
Theorem loan_records_only_grow `{Backend} (h : list Call) (w : World) :
  exists more,
    map loan_core (borrow_records (db (run_history h w)))
    = map loan_core (borrow_records (db w)) ++ more.
Proof.
  apply (run_history_keeps
           (extends_loans (map loan_core (borrow_records (db w))))
           (fun _ => True)).
  - intros op w0 _ Hw0. apply run_op_keeps; try exact Hw0.
    + intros _ ms d Hd. exact Hd.
    + intros _ bs d Hd. exact Hd.
    + intros s bid d Hd. exact Hd.
    + intros _. split.
      * intros row d [more Hd]. exists (more ++ [loan_core row]).
        cbn [borrow_records with_borrow_records].
        rewrite map_app, Hd, <- app_assoc. reflexivity.
      * intros now rid d [more Hd]. exists more.
        cbn [borrow_records with_borrow_records].
        rewrite map_core_close. exact Hd.
  - apply Forall_forall. intros; exact Logic.I.
  - exists []. rewrite app_nil_r. reflexivity.
Qed.

(** X7: each table changes only through its own operations.  A history
    without [add_member], [update_member], [delete_member] leaves the
    members table as it was; one without [borrow_book], [return_book]
    leaves the loan records as they were; one without [add_book],
    [delete_book] leaves every book's identifier, title, author and
    category, and the order of the books, as they were. *)
Theorem tables_change_through_own_operations `{Backend}
    (h : list Call) (w : World) :
  (Forall (fun c => writes_members (call_op c) = false) h ->
     members (db (run_history h w)) = members (db w)) /\
  (Forall (fun c => writes_loans (call_op c) = false) h ->
     borrow_records (db (run_history h w)) = borrow_records (db w)) /\
  (Forall (fun c => reshapes_books (call_op c) = false) h ->
     map book_card (books (db (run_history h w)))
     = map book_card (books (db w))).
Proof.
  split; [|split]; intros Hh.
  - apply (run_history_keeps (fun d => members d = members (db w))
             (fun op => writes_members op = false)); [|exact Hh|reflexivity].
    intros op w0 Hop Hw0. apply run_op_keeps; try exact Hw0.
    + rewrite Hop. discriminate.
    + intros _ bs d Hd. exact Hd.
    + intros s bid d Hd. exact Hd.
    + intros _. split; [intros row d Hd | intros now rid d Hd]; exact Hd.
  - apply (run_history_keeps
             (fun d => borrow_records d = borrow_records (db w))
             (fun op => writes_loans op = false)); [|exact Hh|reflexivity].
    intros op w0 Hop Hw0. apply run_op_keeps; try exact Hw0.
    + intros _ ms d Hd. exact Hd.
    + intros _ bs d Hd. exact Hd.
    + intros s bid d Hd. exact Hd.
    + rewrite Hop. discriminate.
  - apply (run_history_keeps
             (fun d => map book_card (books d) = map book_card (books (db w)))
             (fun op => reshapes_books op = false)); [|exact Hh|reflexivity].
    intros op w0 Hop Hw0. apply run_op_keeps; try exact Hw0.
    + intros _ ms d Hd. exact Hd.
    + rewrite Hop. discriminate.
    + intros s bid d Hd. cbn [books with_books].
      rewrite map_card_write. exact Hd.
    + intros _. split; [intros row d Hd | intros now rid d Hd]; exact Hd.
Qed.

Lemma tables_change_through_own_operations_witness :
  let h := [(1000, [], BorrowBook 7 1); (1001, [false; false; true], ReturnBook 1);
            (1002, [], UpdateBookStock 1 9); (1003, [], SearchBooks "go")] in
  members (db (@run_history local_store h shelf)) = members (db shelf) /\
  map book_card (books (db (@run_history local_store h shelf)))
  = map book_card (books (db shelf)).
Proof.
  intros h.
  destruct (@tables_change_through_own_operations local_store h shelf)
    as [Hm [_ Hb]].
  split; [apply Hm | apply Hb]; repeat constructor.
Defined.

(** * Copies are conserved when the store answers *)

Lemma open_count_filter bid d :
  open_count bid d =
  List.length (filter (fun r => (loan_book_id r =? bid) && is_none (return_date r))
                 (borrow_records d)).
Proof. unfold open_count, is_null, eq_. rewrite filter_filter. reflexivity. Qed.

Lemma count_update {R} (p : R -> bool) (patch : R -> R) (col : R -> Z) v
    (rs : list R) :
  (forall r, p (patch r) = false) ->
  (List.length (filter p (update_eq patch col v rs))
   + List.length (filter p (eq_ col v rs)))%nat
  = List.length (filter p rs).
Proof.
  intros Hp. unfold update_eq, eq_.
  induction rs as [|r rs IH]; cbn [map filter]; [reflexivity|].
  destruct (col r =? v).
  - rewrite Hp. cbn [filter]. destruct (p r); cbn [List.length]; lia.
  - destruct (p r); cbn [List.length]; lia.
Qed.

Lemma open_count_closed bid now rec d :
  lookup_record (record_id rec) d = [rec] -> return_date rec = None ->
  (open_count bid
     (with_borrow_records
        (update_eq (set_return_date now) record_id (record_id rec)
           (borrow_records d)) d)
   + (if (loan_book_id rec =? bid)%Z then 1 else 0))%nat
  = open_count bid d.
Proof.
  intros Hrec Hopen. rewrite !open_count_filter.
  cbn [borrow_records with_borrow_records].
  rewrite <- (count_update _ (set_return_date now) record_id (record_id rec)
                (borrow_records d)).
  - f_equal. unfold lookup_record in Hrec. rewrite Hrec.
    cbn [filter]. rewrite Hopen. cbn [is_none].
    destruct (loan_book_id rec =? bid); reflexivity.
  - intros r. cbn. apply andb_false_r.
Qed.

Lemma open_count_borrowed bid mid b s w :
  open_count bid (after_borrow mid b s w)
  = (open_count bid (db w) + (if (b =? bid)%Z then 1 else 0))%nat.
Proof.
  rewrite !open_count_filter. unfold after_borrow.
  cbn [borrow_records with_borrow_records].
  rewrite filter_app, length_app. f_equal.
  cbn [filter borrowed_row loan_book_id return_date is_none].
  rewrite andb_true_r. destruct (b =? bid); reflexivity.
Qed.

Lemma borrow_book_db mid b w :
  answers 3 w ->
  db (snd (borrow_book mid b w)) = db w \/
  exists s0, stock_of b (db w) = [s0] /\ 0 < s0 /\
             db (snd (borrow_book mid b w)) = after_borrow mid b s0 w.
Proof.
  intros H3.
  assert (answers 1 w) as H1 by (apply (answers_le 1 3); [lia | exact H3]).
  destruct (stock_of b (db w)) as [|s0 [|s1 l]] eqn:Hs.
  - left. rewrite borrow_book_unavailable by (auto). reflexivity.
  - destruct (Z_lt_le_dec 0 s0) as [Hpos | Hle].
    + right. exists s0. rewrite (borrow_book_success mid b s0 w H3 Hs Hpos).
      repeat split. exact Hpos.
    + left. rewrite borrow_book_unavailable by (eauto). reflexivity.
  - left. unfold borrow_book, select_stock, bind. trip H1.
    fold (stock_of b (db w)). rewrite Hs. reflexivity.
Qed.

Lemma return_book_run rec w :
  answers 4 w ->
  lookup_record (record_id rec) (db w) = [rec] -> return_date rec = None ->
  return_book (record_id rec) w =
    match single (stock_of (loan_book_id rec) (db w)) with
    | Val book =>
        (Val (Ok tt),
         mkWorld (after_return rec (get_stock book) w) (clock w)
           (tl (tl (tl (tl (faults w))))))
    | Exc e =>
        (Val (Error (TransactionFailed e)),
         mkWorld
           (with_borrow_records
              (update_eq (set_return_date (clock w)) record_id (record_id rec)
                 (borrow_records (db w))) (db w))
           (clock w) (tl (tl (tl (faults w)))))
    end.
Proof.
  intros H Hrec Hopen.
  unfold return_book, select_stock, write_stock, try_except, utcnow, bind.
  trip H. fold (lookup_record (record_id rec) (db w)). rewrite Hrec.
  cbn [single]. rewrite Hopen. cbn [is_none negb].
  trip H0. trip H. unfold with_borrow_records at 1. cbn [books].
  fold (stock_of (loan_book_id rec) (db w)).
  destruct (single (stock_of (loan_book_id rec) (db w))) as [book | e];
    cbn [fst snd].
  - trip H0. reflexivity.
  - reflexivity.
Qed.

Lemma lookup_id rid rec d : lookup_record rid d = [rec] -> record_id rec = rid.
Proof.
  intros Hrec.
  assert (In rec (lookup_record rid d)) as Hin
      by (rewrite Hrec; left; reflexivity).
  unfold lookup_record, eq_ in Hin. apply filter_In in Hin.
  apply Z.eqb_eq. tauto.
Qed.

Lemma return_book_db rid w :
  answers 4 w ->
  db (snd (return_book rid w)) = db w \/
  exists rec,
    lookup_record rid (db w) = [rec] /\ return_date rec = None /\
    borrow_records (db (snd (return_book rid w)))
      = update_eq (set_return_date (clock w)) record_id rid
          (borrow_records (db w)) /\
    (forall bid, bid <> loan_book_id rec ->
       stock_of bid (db (snd (return_book rid w))) = stock_of bid (db w)) /\
    (forall s0, stock_of (loan_book_id rec) (db w) = [s0] ->
       stock_of (loan_book_id rec) (db (snd (return_book rid w))) = [s0 + 1]).
Proof.
  intros H.
  assert (answers 1 w) as H1 by (apply (answers_le 1 4); [lia | exact H]).
  destruct (lookup_record rid (db w)) as [|rec [|rec' l]] eqn:Hrec.
  - left. unfold return_book, bind. trip H1.
    fold (lookup_record rid (db w)). rewrite Hrec. reflexivity.
  - pose proof (lookup_id rid rec (db w) Hrec) as Hid. subst rid.
    destruct (return_date rec) as [t|] eqn:Hopen.
    + left. rewrite (return_book_closed rec t w H1 Hrec Hopen). reflexivity.
    + right. exists rec. split; [reflexivity|]. split; [exact Hopen|].
      rewrite (return_book_run rec w H Hrec Hopen).
      destruct (stock_of (loan_book_id rec) (db w)) as [|s0 [|s1 l]] eqn:Hs;
        cbn [single get_stock fst snd db].
      * split; [reflexivity|]. split; [|discriminate].
        intros bid Hne. unfold after_return.
        apply (stock_of_write_other (loan_book_id rec) bid (0 + 1)
                 (with_borrow_records _ (db w)) Hne).
      * split; [reflexivity|]. split.
        -- intros bid Hne. unfold after_return.
           apply (stock_of_write_other (loan_book_id rec) bid (s0 + 1)
                    (with_borrow_records _ (db w)) Hne).
        -- intros s' Hs'. inversion Hs'; subst s'.
           apply (stock_of_after_return rec s0 s0 w Hs).
      * split; [reflexivity|]. split; [|discriminate].
        intros bid _. reflexivity.
  - left. unfold return_book, bind. trip H1.
    fold (lookup_record rid (db w)). rewrite Hrec. reflexivity.
Qed.

Lemma copies_conserved_op `{Backend} op bid s w :
  writes_loans op = true -> answers 4 w -> stock_of bid (db w) = [s] ->
  exists s',
    stock_of bid (db (run_op op w)) = [s'] /\
    s' + Z.of_nat (open_count bid (db (run_op op w)))
    = s + Z.of_nat (open_count bid (db w)).
Proof.
  intros Hop H4 Hs.
  destruct op; try discriminate Hop; cbn [run_op].
  - (* borrow_book *)
    assert (answers 3 w) as H3 by (apply (answers_le 3 4); [lia | exact H4]).
    destruct (borrow_book_db mid bid0 w H3) as [-> | [s0 [Hs0 [Hpos ->]]]].
    + exists s. split; [exact Hs | reflexivity].
    + rewrite open_count_borrowed.
      destruct (Z.eqb_spec bid0 bid) as [-> | Hne].
      * rewrite Hs in Hs0. inversion Hs0; subst s0. exists (s - 1).
        split; [apply stock_of_after_borrow; exact Hs | lia].
      * exists s. split; [|lia]. unfold after_borrow.
        rewrite <- Hs.
        apply (stock_of_write_other bid0 bid (s0 - 1)
                 (with_borrow_records _ (db w))).
        intros Heq. apply Hne. symmetry. exact Heq.
  - (* return_book *)
    destruct (return_book_db rid w H4)
      as [-> | [rec [Hrec [Hopen [Hrs [Hother Hsame]]]]]].
    + exists s. split; [exact Hs | reflexivity].
    + pose proof (lookup_id rid rec (db w) Hrec) as Hid. subst rid.
      assert (open_count bid (db (snd (return_book (record_id rec) w)))
              = open_count bid
                  (with_borrow_records
                     (update_eq (set_return_date (clock w)) record_id
                        (record_id rec) (borrow_records (db w))) (db w)))
        as Hcount.
      { rewrite !open_count_filter. rewrite Hrs. reflexivity. }
      pose proof (open_count_closed bid (clock w) rec (db w) Hrec Hopen)
        as Hclosed.
      rewrite Hcount.
      destruct (Z.eqb_spec (loan_book_id rec) bid) as [Heq | Hne].
      * subst bid. exists (s + 1). split; [apply Hsame; exact Hs | lia].
      * exists s. split; [|lia]. rewrite <- Hs. apply Hother.
        intros Heq. apply Hne. symmetry. exact Heq.
Qed.

(** X8: with a store that answers, borrowing and returning conserve the
    copies of a book.  For a book that has one row, after any history of
    [borrow_book] and [return_book] calls, each run with no round trip
    failing, the stock plus the number of open loan records on the book is
    what it was at the start. *)
Theorem copies_conserved `{Backend} (h : list Call) bid s w :
  Forall (fun c => writes_loans (call_op c) = true /\ snd (fst c) = []) h ->
  stock_of bid (db w) = [s] ->
  exists s',
    stock_of bid (db (run_history h w)) = [s'] /\
    s' + Z.of_nat (open_count bid (db (run_history h w)))
    = s + Z.of_nat (open_count bid (db w)).
Proof.
  unfold run_history. revert s w.
  induction h as [|[[t0 fs] op] h IH]; intros s w Hh Hs; cbn [fold_left].
  - exists s. split; [exact Hs | reflexivity].
  - inversion Hh as [|c l [Hop Hfs] Hl]; subst. cbn [call_op fst snd] in *.
    subst fs. cbn [run_call].
    destruct (copies_conserved_op op bid s (mkWorld (db w) t0 []) Hop
                eq_refl Hs) as [s1 [Hs1 Hsum]].
    destruct (IH s1 _ Hl Hs1) as [s' [Hs' Hsum']].
    exists s'. split; [exact Hs'|]. cbn [db] in Hsum. lia.
Qed.

Lemma copies_conserved_witness :
  let h := [(1000, [], BorrowBook 7 1); (1001, [], BorrowBook 8 1);
            (1002, [], ReturnBook 1); (1003, [], ReturnBook 1);
            (1004, [], BorrowBook 9 1)] in
  exists s',
    stock_of 1 (db (@run_history local_store h shelf)) = [s'] /\
    s' + Z.of_nat (open_count 1 (db (@run_history local_store h shelf))) = 1.
Proof.
  intros h.
  destruct (@copies_conserved local_store h 1 1 shelf) as [s' [H1 H2]].
  - repeat constructor.
  - reflexivity.
  - exists s'. split; [exact H1 | exact H2].
Defined.

(** * Borrowing until the stock runs out *)

Lemma open_count_Z_borrowed bid mid s w :
  Z.of_nat (open_count bid (after_borrow mid bid s w))
  = Z.of_nat (open_count bid (db w)) + 1.
Proof. rewrite open_count_borrowed, Z.eqb_refl. lia. Qed.

(** X9: of [n] borrow attempts in a row on a book with stock [s >= 0],
    made while the store answers, exactly [min n s] succeed: afterwards
    the stock is [max 0 (s - n)] and the open loan records on the book
    are [min n s] more than before. *)
Theorem borrows_drain_stock `{Backend} (h : list Call) bid s w :
  forallb (is_borrow_of bid) h = true ->
  stock_of bid (db w) = [s] -> 0 <= s ->
  stock_of bid (db (run_history h w))
    = [Z.max 0 (s - Z.of_nat (List.length h))] /\
  Z.of_nat (open_count bid (db (run_history h w)))
    = Z.of_nat (open_count bid (db w)) + Z.min (Z.of_nat (List.length h)) s.
Proof.
  unfold run_history. revert s w.
  induction h as [|[[t0 fs] op] h IH]; intros s w Hh Hs Hpos;
    cbn [fold_left List.length].
  - split; [rewrite Hs; f_equal; lia | lia].
  - cbn [forallb is_borrow_of] in Hh. apply andb_true_iff in Hh.
    destruct Hh as [Hc Hh].
    destruct fs; [|discriminate]. destruct op; try discriminate.
    apply Z.eqb_eq in Hc. subst bid0. cbn [run_call run_op].
    destruct (Z_lt_le_dec 0 s) as [Hlt | Hle].
    + rewrite (borrow_book_success mid bid s (mkWorld (db w) t0 [])
                 eq_refl Hs Hlt). cbn [snd clock faults tl].
      destruct (IH (s - 1)
                  (mkWorld (after_borrow mid bid s (mkWorld (db w) t0 []))
                     t0 []) Hh) as [H1 H2].
      * cbn [db]. apply stock_of_after_borrow. exact Hs.
      * lia.
      * rewrite H1, H2. cbn [db].
        rewrite open_count_Z_borrowed. cbn [db].
        split; [f_equal; lia | lia].
    + rewrite (borrow_book_unavailable mid bid (mkWorld (db w) t0 []) eq_refl)
        by (right; exists s; split; [exact Hs | exact Hle]).
      cbn [snd db clock faults tl].
      destruct (IH s (mkWorld (db w) t0 []) Hh Hs Hpos) as [H1 H2].
      rewrite H1, H2. cbn [db]. split; [f_equal; lia | lia].
Qed.

Lemma borrows_drain_stock_witness :
  let h := [(1000, [], BorrowBook 7 1); (1001, [], BorrowBook 8 1);
            (1002, [], BorrowBook 9 1)] in
  stock_of 1 (db (@run_history local_store h shelf)) = [0] /\
  open_count 1 (db (@run_history local_store h shelf)) = 1%nat.
Proof.
  intros h.
  destruct (@borrows_drain_stock local_store h 1 1 shelf) as [H1 H2];
    [reflexivity | reflexivity | lia |].
  split; [exact H1 | reflexivity].
Defined.

(** * Keywords and whitespace *)

Lemma rstrip_cons c s :
  rstrip (String c s) =
  match rstrip s with
  | EmptyString => if is_space c then EmptyString else String c EmptyString
  | t => String c t
  end.
Proof. reflexivity. Qed.

Lemma rstrip_rstrip s : rstrip (rstrip s) = rstrip s.
Proof.
  induction s as [|c s IH]; [reflexivity|].
  rewrite (rstrip_cons c s).
  destruct (rstrip s) as [|c' t] eqn:E.
  - destruct (is_space c) eqn:Ec; [reflexivity|].
    rewrite rstrip_cons. cbn [rstrip]. rewrite Ec. reflexivity.
  - rewrite rstrip_cons, IH. reflexivity.
Qed.

Lemma rstrip_head c s :
  is_space c = false -> exists t, rstrip (String c s) = String c t.
Proof.
  intros Hc. cbn [rstrip]. destruct (rstrip s) as [|c' t].
  - rewrite Hc. eexists; reflexivity.
  - eexists; reflexivity.
Qed.

Lemma lstrip_head s :
  lstrip s = EmptyString \/
  exists c t, lstrip s = String c t /\ is_space c = false.
Proof.
  induction s as [|c s IH]; cbn [lstrip]; [left; reflexivity|].
  destruct (is_space c) eqn:Ec; [exact IH|].
  right. exists c, s. split; [reflexivity | exact Ec].
Qed.

Lemma strip_strip s : strip (strip s) = strip s.
Proof.
  unfold strip. destruct (lstrip_head s) as [-> | [c [t [-> Hc]]]].
  - reflexivity.
  - destruct (rstrip_head c t Hc) as [u Hu].
    assert (lstrip (rstrip (String c t)) = rstrip (String c t)) as ->
        by (rewrite Hu; cbn [lstrip]; rewrite Hc; reflexivity).
    apply rstrip_rstrip.
Qed.

(** X10: whitespace around the keyword does not matter to
    [search_books]: the call with the keyword and the call with the
    keyword already trimmed give the same reply and leave the same
    world. *)
Theorem search_books_trims_keyword `{Backend} (keyword : string) (w : World) :
  search_books (strip keyword) w = search_books keyword w.
Proof. unfold search_books. rewrite strip_strip. reflexivity. Qed.

(** * Store failures *)



(** * Updates and deletes by identifier *)

Lemma update_eq_none {R} (patch : R -> R) (col : R -> Z) v (rows : list R) :
  eq_ col v rows = [] -> update_eq patch col v rows = rows.
Proof.
  unfold eq_, update_eq. induction rows as [|r rows IH]; [reflexivity|].
  cbn [filter map]. destruct (col r =? v); [discriminate|].
  intros Hn. rewrite IH by exact Hn. reflexivity.
Qed.


Lemma update_eq_length {R} (patch : R -> R) (col : R -> Z) v (rows : list R) :
  List.length (update_eq patch col v rows) = List.length rows.
Proof. unfold update_eq. apply length_map. Qed.

(** X12: [update_member], when the store answers, rewrites the email of
    the rows carrying the identifier and nothing else: those rows come
    back as the reply with the new email and their other columns as they
    were, the rows of every other member are untouched, no row is added
    or dropped, and books and loan records are left alone.  An identifier
    no member carries is not an error: the reply is the empty list and
    nothing changes. *)
Theorem update_member_effect mid new_email w :
  answers 1 w ->
  fst (update_member mid new_email w)
    = Val (map (set_email new_email) (eq_ member_id mid (members (db w)))) /\
  eq_ member_id mid (members (db (snd (update_member mid new_email w))))
    = map (set_email new_email) (eq_ member_id mid (members (db w))) /\
  (forall mid', mid' <> mid ->
     eq_ member_id mid' (members (db (snd (update_member mid new_email w))))
     = eq_ member_id mid' (members (db w))) /\
  List.length (members (db (snd (update_member mid new_email w))))
    = List.length (members (db w)) /\
  books (db (snd (update_member mid new_email w))) = books (db w) /\
  borrow_records (db (snd (update_member mid new_email w)))
    = borrow_records (db w) /\
  (eq_ member_id mid (members (db w)) = [] ->
     fst (update_member mid new_email w) = Val [] /\
     members (db (snd (update_member mid new_email w))) = members (db w)).
Proof.
  intros H. unfold update_member. trip H. cbn [members with_members].
  rewrite eq_update_same by reflexivity.
  repeat match goal with |- _ /\ _ => split end; try reflexivity.
  - intros mid' Hne. apply eq_update_other; [reflexivity | exact Hne].
  - apply update_eq_length.
  - intros Hn. split; [rewrite Hn; reflexivity|].
    apply update_eq_none. exact Hn.
Qed.

Lemma update_member_effect_witness :
  fst (update_member 7 "ada@lovelace.org" shelf)
    = Val [mkMember 7 "Ada" "ada@lovelace.org" 0] /\
  fst (update_member 8 "x@example.org" shelf) = Val [] /\
  members (db (snd (update_member 8 "x@example.org" shelf)))
    = members (db shelf).
Proof.
  destruct (update_member_effect 7 "ada@lovelace.org" shelf eq_refl)
    as [H1 _].
  destruct (update_member_effect 8 "x@example.org" shelf eq_refl)
    as [_ [_ [_ [_ [_ [_ H2]]]]]].
  destruct (H2 eq_refl) as [H3 H4].
  split; [exact H1 | split; [exact H3 | exact H4]].
Defined.

(** X13: [update_book_stock], when the store answers, sets the stock of
    the rows carrying the identifier to the given value, whatever it is,
    and changes nothing else: every other book keeps its stock, every
    book keeps its identifier, title, author and category, and members
    and loan records are left alone, open loans on the book included.  An
    identifier no book carries is not an error: the reply is the empty
    list and nothing changes. *)
Theorem update_book_stock_effect bid new_stock w :
  answers 1 w ->
  stock_of bid (db (snd (update_book_stock bid new_stock w)))
    = map (fun _ => new_stock) (stock_of bid (db w)) /\
  (forall bid', bid' <> bid ->
     stock_of bid' (db (snd (update_book_stock bid new_stock w)))
     = stock_of bid' (db w)) /\
  map book_card (books (db (snd (update_book_stock bid new_stock w))))
    = map book_card (books (db w)) /\
  members (db (snd (update_book_stock bid new_stock w))) = members (db w) /\
  borrow_records (db (snd (update_book_stock bid new_stock w)))
    = borrow_records (db w) /\
  (stock_of bid (db w) = [] ->
     fst (update_book_stock bid new_stock w) = Val [] /\
     books (db (snd (update_book_stock bid new_stock w))) = books (db w)).
Proof.
  intros H. unfold update_book_stock. trip H.
  repeat match goal with |- _ /\ _ => split end; try reflexivity.
  - unfold stock_of. cbn [books with_books].
    rewrite eq_update_same by reflexivity.
    rewrite !map_map. reflexivity.
  - intros bid' Hne. apply stock_of_write_other. exact Hne.
  - cbn [books with_books]. apply map_card_write.
  - intros Hn. unfold stock_of in Hn. apply map_eq_nil in Hn. split.
    + rewrite eq_update_same by reflexivity. rewrite Hn. reflexivity.
    + cbn [books with_books]. apply update_eq_none. exact Hn.
Qed.

Lemma update_book_stock_effect_witness :
  stock_of 1 (db (snd (update_book_stock 1 4 on_loan))) = [4] /\
  open_count 1 (db (snd (update_book_stock 1 4 on_loan))) = 1%nat /\
  fst (update_book_stock 2 4 on_loan) = Val [].
Proof.
  destruct (update_book_stock_effect 1 4 on_loan eq_refl) as [H1 _].
  destruct (update_book_stock_effect 2 4 on_loan eq_refl)
    as [_ [_ [_ [_ [_ H2]]]]].
  destruct (H2 eq_refl) as [H3 _].
  split; [exact H1 | split; [reflexivity | exact H3]].
Defined.



(** * Search: when nothing is found *)





(** * Adding a book, then borrowing it *)

(** X16: a book added with stock [s], the store answering, can be
    borrowed under the identifier the store gave it when [s > 0], which
    leaves stock [s - 1]; added with [s <= 0] it is stored all the same
    and every borrow of it is refused as not available. *)
Theorem added_book_borrowing t a c s mid w :
  answers 4 w ->
  exists row,
    fst (add_book t a c s w) = Val [row] /\
    title row = t /\ author row = a /\ category row = c /\ stock row = s /\
    books (db (snd (add_book t a c s w))) = books (db w) ++ [row] /\
    stock_of (book_id row) (db (snd (add_book t a c s w))) = [s] /\
    (0 < s ->
     exists rec,
       fst (borrow_book mid (book_id row) (snd (add_book t a c s w)))
         = Val (Ok [rec]) /\
       stock_of (book_id row)
         (db (snd (borrow_book mid (book_id row) (snd (add_book t a c s w)))))
         = [s - 1]) /\
    (s <= 0 ->
     fst (borrow_book mid (book_id row) (snd (add_book t a c s w)))
       = Val (Error BookNotAvailable)).
Proof.
  intros H4.
  set (row := mkBook (fresh_id (map book_id (books (db w)))) t a c s).
  assert (stock_of (book_id row) (with_books (books (db w) ++ [row]) (db w))
          = [s]) as Hs.
  { unfold stock_of. cbn [books with_books]. rewrite eq_app.
    rewrite (eq_none book_id) by apply fresh_id_new.
    cbn [app eq_ filter row book_id]. rewrite Z.eqb_refl. reflexivity. }
  exists row. unfold add_book. trip H4. fold row.
  repeat match goal with |- _ /\ _ => split end; try reflexivity.
  - exact Hs.
  - intros Hpos. eexists.
    assert (answers 3 (mkWorld (with_books (books (db w) ++ [row]) (db w))
                         (clock w) (tl (faults w)))) as H3 by exact H.
    rewrite (borrow_book_success mid (book_id row) s _ H3 Hs Hpos).
    cbn [fst snd db]. split; [reflexivity|].
    apply stock_of_after_borrow. exact Hs.
  - intros Hle. rewrite borrow_book_unavailable; [reflexivity | |].
    + apply (answers_le 1 3); [lia | exact H].
    + right. exists s. split; [exact Hs | exact Hle].
Qed.

Lemma added_book_borrowing_witness :
  exists row,
    fst (add_book "Dune" "Frank Herbert" "Fiction" 2 shelf) = Val [row] /\
    book_id row = 2 /\ stock row = 2.
Proof.
  destruct (added_book_borrowing "Dune" "Frank Herbert" "Fiction" 2 7 shelf)
    as [row [H1 [_ [_ [_ [H2 _]]]]]]; [reflexivity|].
  exists row. split; [exact H1|]. split; [|exact H2].
  cbn in H1. inversion H1. reflexivity.
Defined.

(** * The command loop *)

Lemma print_books_run `{Backend} rows c :
  print_books rows c =
    (Fine tt, mkConsole (stdin c) (stdout c ++ map BookLine rows) (store c)).
Proof.
  revert c. induction rows as [|b rows IH]; intros c; cbn [print_books map].
  - unfold io_ret. rewrite app_nil_r. destruct c; reflexivity.
  - unfold io_bind, print_book, print. rewrite IH. cbn [stdin stdout store].
    rewrite <- app_assoc. reflexivity.
Qed.

(** Opens one turn of the loop into its cases: the lines left, the
    choice, the integers read and the outcome of the call. *)
Ltac open_turn :=
  unfold main_body, input_int, io_bind, input, print, call, io_ret;
  repeat (cbn [stdin stdout store fst snd] in *;
          try rewrite print_books_run;
          first
            [ match goal with
              | |- context [match ?l with [] => _ | _ :: _ => _ end] =>
                  is_var l; destruct l
              end
            | match goal with
              | |- context [String.eqb ?a ?b] => destruct (String.eqb a b) eqn:?
              end
            | match goal with
              | |- context [int_of_string ?s] => destruct (int_of_string s) eqn:?
              end
            | match goal with
              | |- context [let (_, _) := ?x in _] =>
                  lazymatch x with
                  | context [let (_, _) := _ in _] => fail
                  | _ => destruct x as [[?|?] ?] eqn:?
                  end
              end ]);
  try rewrite !print_books_run;
  cbn [stdin stdout store fst snd] in *.

Lemma main_body_reads `{Backend} c b c' :
  main_body c = (Fine b, c') ->
  (List.length (stdin c') < List.length (stdin c))%nat.
Proof.
  destruct c as [inp out w].
  open_turn; intros Heq; inversion Heq; subst; cbn [stdin List.length]; lia.
Qed.

Lemma main_body_break `{Backend} c c' :
  main_body c = (Fine false, c') ->
  stdout c' = stdout c ++ [Menu; Say Goodbye] /\ store c' = store c /\
  exists line, stdin c = line :: stdin c' /\ strip line = "12"%string.
Proof.
  destruct c as [inp out w].
  open_turn; intros Heq; inversion Heq; subst; cbn [stdin stdout store].
  rewrite <- app_assoc. split; [reflexivity|]. split; [reflexivity|].
  eexists. split; [reflexivity|]. apply String.eqb_eq. assumption.
Qed.

Lemma main_body_eof `{Backend} c c' :
  main_body c = (Died EOFError, c') -> stdin c' = [] /\ store c' = store c.
Proof.
  destruct c as [inp out w].
  open_turn; intros Heq; inversion Heq; subst; split; reflexivity.
Qed.






Lemma main_loop_enough `{Backend} fuel :
  forall c, (List.length (stdin c) < fuel)%nat ->
  exists r c',
    main_loop fuel c = Some (r, c') /\
    (r = Fine tt -> exists out, stdout c' = out ++ [Say Goodbye]) /\
    (r = Died EOFError -> stdin c' = []) /\
    (forall fuel', (List.length (stdin c) < fuel')%nat ->
                   main_loop fuel' c = Some (r, c')).
Proof.
  induction fuel as [|fuel IH]; intros c Hlen; [lia|].
  cbn [main_loop]. destruct (main_body c) as [[[|]|e] c1] eqn:E.
  - pose proof (main_body_reads c true c1 E) as Hread.
    destruct (IH c1 ltac:(lia)) as [r [c' [Hrun [Hbye [Heof Hmore]]]]].
    exists r, c'. repeat split; try assumption.
    intros fuel' Hlen'. destruct fuel' as [|fuel']; [lia|].
    cbn [main_loop]. rewrite E. apply Hmore. lia.
  - destruct (main_body_break c c1 E) as [Hout _].
    exists (Fine tt), c1. repeat split.
    + intros _. exists (stdout c ++ [Menu]). rewrite Hout, <- app_assoc.
      reflexivity.
    + discriminate.
    + intros fuel' Hlen'. destruct fuel' as [|fuel']; [lia|].
      cbn [main_loop]. rewrite E. reflexivity.
  - exists (Died e), c1. repeat split.
    + discriminate.
    + intros He. inversion He; subst e. apply (main_body_eof c c1 E).
    + intros fuel' Hlen'. destruct fuel' as [|fuel']; [lia|].
      cbn [main_loop]. rewrite E. reflexivity.
Qed.

(** X17: on any finite input [main] comes to an end, and giving the loop
    more turns than that changes nothing.  It ends normally only through
    choice 12, with "Goodbye!" as the last thing printed; otherwise it
    ends with an uncaught exception, which is [EOFError] only when every
    input line has been read. *)
Theorem main_always_ends `{Backend} (c : Console AggRow) :
  exists r c',
    main c = Some (r, c') /\
    (r = Fine tt -> exists out, stdout c' = out ++ [Say Goodbye]) /\
    (r = Died EOFError -> stdin c' = []) /\
    (forall fuel, (List.length (stdin c) < fuel)%nat ->
                  main_loop fuel c = Some (r, c')).
Proof. unfold main. apply main_loop_enough. lia. Qed.












(** * Adding a member, then listing *)

(** X22: [add_member], the store answering, stores the name and the
    email as given at the end of the members table and returns the new
    row; the members already there, the books and the loan records are
    untouched, and [list_members] right after returns the old members
    followed by the new one. *)
Theorem add_member_then_list n e w :
  answers 2 w ->
  exists row,
    fst (add_member n e w) = Val [row] /\
    name row = n /\ email row = e /\
    members (db (snd (add_member n e w))) = members (db w) ++ [row] /\
    books (db (snd (add_member n e w))) = books (db w) /\
    borrow_records (db (snd (add_member n e w))) = borrow_records (db w) /\
    fst (list_members (snd (add_member n e w)))
      = Val (members (db w) ++ [row]).
Proof.
  intros H. eexists. unfold add_member, list_members.
  trip H. trip H0. repeat split.
Qed.

Lemma add_member_then_list_witness :
  exists row,
    fst (add_member "Grace" "grace@example.org" shelf) = Val [row] /\
    fst (list_members (snd (add_member "Grace" "grace@example.org" shelf)))
    = Val [mkMember 7 "Ada" "ada@example.org" 0; row].
Proof.
  destruct (add_member_then_list "Grace" "grace@example.org" shelf)
    as [row [H1 [_ [_ [_ [_ [_ H2]]]]]]]; [reflexivity|].
  exists row. split; [exact H1 | exact H2].
Defined.
